(** * The 2D heat-equation solver of [src/components/HeatEquation2D.tsx]

    A shallow embedding of the numerical core of the React component
    [HeatEquation2D]: grid initialisation, boundary conditions, the explicit
    stencil step, the colour map, the renderer's scan and the animation
    step, followed by the properties of these functions.

    Numbers.  The source computes with JavaScript [number]s.  The functions
    below are written once, over an interface [JsNumber] of the operations
    the source uses and an interface [JsTrig] of [Math.PI], [Math.sin] and
    [Math.cos].  There are two instances:
    - [float_number], IEEE-754 binary64 as the engine evaluates it
      (Rocq's primitive floats); [Math.sin] and [Math.cos] are
      implementation-approximated, so statements in binary64 hold for every
      [JsTrig float];
    - [rnum_number] and [rnum_trig], exact real arithmetic extended with one
      [NaN] value for undefined results, with the true [sin], [cos] and [PI].
      This is not the arithmetic the code runs: it does not round, overflow
      or distinguish the two zeros.  It serves for small sample fields and
      for statements that are given beside their binary64 form.
    The properties of the code are proved for every instance, or for
    binary64 with [FloatAxioms]; concrete runs are evaluated in binary64.

    Arrays.  A [number[][]] is an outer array of references to row arrays.
    The rows are mutated in place by the source ([u[i][j] = ...]), so they
    live in a store and a grid is the list of its row addresses.  Outer
    arrays are never written after they are built, so they are values. *)

From Stdlib Require Import ZArith Reals Lra Lia Floats String.
From stdpp Require Import base list.

Set Warnings "-inexact-float".
Local Open Scope Z_scope.

(** ** The numeric interface *)

Declare Scope num_scope.
Delimit Scope num_scope with num.

Class JsNumber (num : Type) : Type := {
  (** an integer literal or a loop counter used as a number *)
  of_Z : Z -> num;
  (** the literals [0.5], [0.25] and [0.75] *)
  lit_half : num;
  lit_quarter : num;
  lit_three_quarters : num;
  (** the value that [undefined] becomes in arithmetic *)
  NaN : num;
  add : num -> num -> num;
  sub : num -> num -> num;
  mul : num -> num -> num;
  div : num -> num -> num;
  (** [a < b], [a > b], [a >= b] *)
  ltb : num -> num -> bool;
  gtb : num -> num -> bool;
  geb : num -> num -> bool;
  Math_floor : num -> num;
  Math_max : num -> num -> num;
  Math_min : num -> num -> num;
  (** [Array(n)]: the length when [n] is an integer from 0 to [2^32 - 1],
      otherwise the constructor throws a RangeError. *)
  to_length : num -> option Z
}.

Class JsTrig (num : Type) : Type := {
  Math_PI : num;
  Math_sin : num -> num;
  Math_cos : num -> num
}.

Infix "+" := add : num_scope.
Infix "-" := sub : num_scope.
Infix "*" := mul : num_scope.
Infix "/" := div : num_scope.

(** The greatest length of an array, [2^32 - 1]. *)
Definition max_length : Z := 4294967295.

(** *** Binary64 *)

Module F64.

Definition float_of_Z (z : Z) : float :=
  SF2Prim (binary_normalize prec emax z 0 false).

(** [Math.floor]: zeros, infinities and NaN are returned as they are. *)
Definition floor (x : float) : float :=
  match Prim2SF x with
  | S754_finite s m e =>
      if 0 <=? e then x
      else
        let d := 2 ^ (- e) in
        if Z.pos m mod d =? 0 then x
        else if s then float_of_Z (- (Z.pos m / d + 1))
             else float_of_Z (Z.pos m / d)
  | _ => x
  end.

Definition is_neg_zero (x : float) : bool :=
  match Prim2SF x with
  | S754_zero true => true
  | _ => false
  end.

(** [Math.max] and [Math.min]: NaN if an argument is NaN; [+0] is larger
    than [-0]. *)
Definition max (a b : float) : float :=
  if is_nan a || is_nan b then nan
  else if PrimFloat.ltb a b then b
  else if PrimFloat.ltb b a then a
  else if is_neg_zero a then b else a.

Definition min (a b : float) : float :=
  if is_nan a || is_nan b then nan
  else if PrimFloat.ltb a b then a
  else if PrimFloat.ltb b a then b
  else if is_neg_zero a then a else b.

Definition to_length (x : float) : option Z :=
  match Prim2SF x with
  | S754_zero _ => Some 0
  | S754_finite false m e =>
      if 0 <=? e then
        (if Z.pos m * 2 ^ e <=? max_length then Some (Z.pos m * 2 ^ e)
         else None)
      else
        let d := 2 ^ (- e) in
        if (Z.pos m mod d =? 0) && (Z.pos m / d <=? max_length)
        then Some (Z.pos m / d) else None
  | _ => None
  end.

(** The real number that a finite float holds (0 for the others). *)
Definition value (x : float) : R :=
  match Prim2SF x with
  | S754_finite s m e =>
      let a := if 0 <=? e then IZR (Z.pos m * 2 ^ e)
               else (IZR (Z.pos m) / IZR (2 ^ (- e)))%R in
      if s then (- a)%R else a
  | _ => 0%R
  end.

End F64.

#[export] Instance float_number : JsNumber float := {|
  of_Z := F64.float_of_Z;
  lit_half := 0.5%float;
  lit_quarter := 0.25%float;
  lit_three_quarters := 0.75%float;
  NaN := nan;
  add := PrimFloat.add;
  sub := PrimFloat.sub;
  mul := PrimFloat.mul;
  div := PrimFloat.div;
  ltb := PrimFloat.ltb;
  gtb := fun a b => PrimFloat.ltb b a;
  geb := fun a b => PrimFloat.leb b a;
  Math_floor := F64.floor;
  Math_max := F64.max;
  Math_min := F64.min;
  to_length := F64.to_length
|}.

(** *** Exact arithmetic *)

Inductive rnum : Type :=
  | Fin (x : R)
  | RNaN.

Module Exact.

Definition lift1 (f : R -> R) (a : rnum) : rnum :=
  match a with
  | Fin x => Fin (f x)
  | RNaN => RNaN
  end.

Definition lift2 (f : R -> R -> R) (a b : rnum) : rnum :=
  match a, b with
  | Fin x, Fin y => Fin (f x y)
  | _, _ => RNaN
  end.

(** Division by zero has no value in exact arithmetic: the quotient is NaN,
    as [0/0] is in binary64 (where a nonzero numerator gives an infinity). *)
Definition div (a b : rnum) : rnum :=
  match a, b with
  | Fin x, Fin y => if Req_dec_T y 0 then RNaN else Fin (x / y)
  | _, _ => RNaN
  end.

(** Comparisons with NaN are false. *)
Definition lt (a b : rnum) : bool :=
  match a, b with
  | Fin x, Fin y => if Rlt_dec x y then true else false
  | _, _ => false
  end.

Definition le (a b : rnum) : bool :=
  match a, b with
  | Fin x, Fin y => if Rle_dec x y then true else false
  | _, _ => false
  end.

Definition floor (x : R) : R := IZR (Int_part x).

Definition to_length (a : rnum) : option Z :=
  match a with
  | Fin x =>
      if Req_dec_T x (IZR (Int_part x))
      then (if (0 <=? Int_part x) && (Int_part x <=? max_length)
            then Some (Int_part x) else None)
      else None
  | RNaN => None
  end.

End Exact.

#[export] Instance rnum_number : JsNumber rnum := {|
  of_Z := fun z => Fin (IZR z);
  lit_half := Fin (1 / 2);
  lit_quarter := Fin (1 / 4);
  lit_three_quarters := Fin (3 / 4);
  NaN := RNaN;
  add := Exact.lift2 Rplus;
  sub := Exact.lift2 Rminus;
  mul := Exact.lift2 Rmult;
  div := Exact.div;
  ltb := Exact.lt;
  gtb := fun a b => Exact.lt b a;
  geb := fun a b => Exact.le b a;
  Math_floor := Exact.lift1 Exact.floor;
  Math_max := Exact.lift2 Rmax;
  Math_min := Exact.lift2 Rmin;
  to_length := Exact.to_length
|}.

#[export] Instance rnum_trig : JsTrig rnum := {|
  Math_PI := Fin PI;
  Math_sin := Exact.lift1 sin;
  Math_cos := Exact.lift1 cos
|}.

(** ** Parameters, store and the program monad *)

Section Model.

Context {num : Type} {JN : JsNumber num} {JT : JsTrig num}.

Local Open Scope num_scope.

(** [interface HeatEquationParams] *)
Record HeatEquationParams : Type := {
  Lx : num;
  Ly : num;
  fL : num;
  fR : num;
  fT : num;
  alpha : num;
  dt : num;
  dx : num;
  dy : num;
  totalTime : num;
  gridResolution : num
}.

(** A row array, and a [number[][]]: the addresses of its rows. *)
Local Abbreviation row := (list num).
Local Abbreviation grid := (list nat).

(** The value of [temperatureToColor]: the template string
    [rgb(${r}, ${g}, ${b})], kept as its three channel numbers. *)
Inductive color : Type :=
  | rgb (r g b : num).

(** Calls on the 2D context. *)
Inductive draw : Type :=
  | ClearRect (x y w h : num)
  | FillRect (fillStyle : color) (x y w h : num)
  | StrokeLine (x0 y0 x1 y1 : num).

Record canvas : Type := {
  width : num;
  height : num;
  drawn : list draw
}.

(** The mutable world of the component: the row arrays, the lines written
    by [console.warn], and the canvas behind [canvasRef] ([None] while the
    ref is null or has no 2D context). *)
Record store : Type := {
  rows : list row;
  console : list string;
  screen : option canvas
}.

(** A computation returns a result and the store it leaves, or throws
    ([None]): a TypeError on reading a property of [undefined], a
    RangeError from [Array(n)]. *)
Definition M (A : Type) : Type := store -> option (A * store).

Definition ret {A} (a : A) : M A := fun s => Some (a, s).

Definition bind {A B} (m : M A) (f : A -> M B) : M B :=
  fun s =>
    match m s with
    | Some (a, s') => f a s'
    | None => None
    end.

Definition throw {A} : M A := fun _ => None.

Notation "x <- m ;; k" := (bind m (fun x => k))
  (at level 100, m at next level, right associativity).
Notation "m ;; k" := (bind m (fun _ => k))
  (at level 100, right associativity).

(** [for (let i = lo; i < hi; i++) acc = body(i, acc)], the locals the
    body assigns being threaded as [acc]. *)
Fixpoint for_loop {A} (n : nat) (i : Z) (body : Z -> A -> M A) (acc : A) : M A :=
  match n with
  | O => ret acc
  | S n' => acc' <- body i acc ;; for_loop n' (i + 1)%Z body acc'
  end.

Definition for_fold {A} (lo hi : Z) (body : Z -> A -> M A) (acc : A) : M A :=
  for_loop (Z.to_nat (hi - lo)) lo body acc.

Definition for_range (lo hi : Z) (body : Z -> M unit) : M unit :=
  for_fold lo hi (fun i _ => body i) tt.

(** *** Array reads and writes *)

(** [l[i]] for an integer [i]; [None] is [undefined]. *)
Definition zlookup {A} (l : list A) (i : Z) : option A :=
  if (i <? 0)%Z then None else l !! Z.to_nat i.

(** [r[j]] used as a number: a missing element is [undefined], which
    every use in this program converts to NaN. *)
Definition row_get (r : row) (j : Z) : num :=
  default NaN (zlookup r j).

(** [r[j] = v]: in range it replaces; past the end it extends the array,
    the skipped elements being holes (read as [undefined]).  A negative [j]
    sets a property beside the elements; the only value this program ever
    assigns there is NaN, which is also what reading a missing property
    gives, so the property is not kept. *)
Definition row_set (r : row) (j : Z) (v : num) : row :=
  if (j <? 0)%Z then r
  else if (j <? Z.of_nat (length r))%Z then <[Z.to_nat j := v]> r
  else r ++ replicate (Z.to_nat j - length r)%nat NaN ++ [v].

(** [u[i]] as the base of a further access: [undefined] throws. *)
Definition grid_row (u : grid) (i : Z) : M nat :=
  match zlookup u i with
  | Some a => ret a
  | None => throw
  end.

(** The array at an address.  Every address held by a grid is allocated. *)
Definition read_row (a : nat) : M row :=
  fun s =>
    match rows s !! a with
    | Some r => Some (r, s)
    | None => None
    end.

Definition write_row (a : nat) (r : row) : M unit :=
  fun s =>
    Some (tt, {| rows := <[a := r]> (rows s);
                 console := console s;
                 screen := screen s |}).

(** A new array with the elements [r]. *)
Definition new_row (r : row) : M nat :=
  fun s =>
    Some (length (rows s),
          {| rows := rows s ++ [r];
             console := console s;
             screen := screen s |}).

(** [u[i][j]] *)
Definition load (u : grid) (i j : Z) : M num :=
  a <- grid_row u i ;;
  r <- read_row a ;;
  ret (row_get r j).

(** [u[i][j] = v] *)
Definition store_cell (u : grid) (i j : Z) (v : num) : M unit :=
  a <- grid_row u i ;;
  r <- read_row a ;;
  write_row a (row_set r j v).

(** [u[i].length] *)
Definition row_length (u : grid) (i : Z) : M Z :=
  a <- grid_row u i ;;
  r <- read_row a ;;
  ret (Z.of_nat (length r)).

(** [console.warn(msg)] *)
Definition console_warn (msg : string) : M unit :=
  fun s =>
    Some (tt, {| rows := rows s;
                 console := console s ++ [msg];
                 screen := screen s |}).

(** One call on the 2D context of the canvas [c]. *)
Definition emit (d : draw) : M unit :=
  fun s =>
    Some (tt, {| rows := rows s;
                 console := console s;
                 screen :=
                   match screen s with
                   | Some c => Some {| width := width c;
                                       height := height c;
                                       drawn := drawn c ++ [d] |}
                   | None => None
                   end |}).

(** [xs.map(f)] for a callback with effects. *)
Fixpoint map_M {A B} (f : A -> M B) (xs : list A) : M (list B) :=
  match xs with
  | [] => ret []
  | x :: xs' => y <- f x ;; ys <- map_M f xs' ;; ret (y :: ys)
  end.

(** ** The functions of the component *)

Section WithParams.

Variable params : HeatEquationParams.

(** [Array(n).fill(0)] as a new row. *)
Definition Array_fill_0 (n : num) : M nat :=
  match to_length n with
  | Some len => new_row (replicate (Z.to_nat len) (of_Z 0))
  | None => throw
  end.

Definition initializeGrid : M grid :=
  let nx := Math_floor (Lx params / dx params) + of_Z 1 in
  let ny := Math_floor (Ly params / dy params) + of_Z 1 in
  match to_length nx with
  | None => throw
  | Some lenx =>
      u <- map_M (fun _ => Array_fill_0 ny) (replicate (Z.to_nat lenx) tt) ;;
      (* the callback has checked [ny] whenever the loop body can run *)
      let leny := default 0%Z (to_length ny) in
      for_range 0 lenx (fun i =>
        for_range 0 leny (fun j =>
          let x := of_Z i * dx params in
          let y := of_Z j * dy params in
          store_cell u i j
            (Math_cos (Math_PI * y / (of_Z 2 * Ly params))
             * Math_sin (Math_PI * x / Lx params)))) ;;
      ret u
  end.

Definition applyBoundaryConditions (u : grid) : M unit :=
  let nx := Z.of_nat (length u) in
  ny <- row_length u 0 ;;
  for_range 0 nx (fun i =>
    let x := of_Z i * dx params in
    store_cell u i 0 (Math_sin (Math_PI * x / Lx params))) ;;
  for_range 0 ny (fun j =>
    v <- load u 1 j ;;
    store_cell u 0 j (v - fL params * dx params)) ;;
  for_range 0 ny (fun j =>
    v <- load u (nx - 2) j ;;
    store_cell u (nx - 1) j (v + fR params * dx params)) ;;
  for_range 0 nx (fun i =>
    v <- load u i (ny - 2) ;;
    store_cell u i (ny - 1) (v + fT params * dy params)).

Definition stability_message : string :=
  "Stability condition violated! Consider reducing dt or increasing dx/dy.".

Definition rx : num := alpha params * dt params / (dx params * dx params).
Definition ry : num := alpha params * dt params / (dy params * dy params).

(** The right-hand side of the stencil assignment, from the seven reads
    in the order the expression makes them. *)
Definition stencil (c e c1 w n c2 s : num) : num :=
  c + rx * (e - of_Z 2 * c1 + w) + ry * (n - of_Z 2 * c2 + s).

Definition solveHeatEquation (u : grid) : M grid :=
  let nx := Z.of_nat (length u) in
  ny <- row_length u 0 ;;
  newU <- map_M (fun a => r <- read_row a ;; new_row r) u ;;
  (if gtb (rx + ry) lit_half then console_warn stability_message else ret tt) ;;
  for_range 1 (nx - 1) (fun i =>
    for_range 1 (ny - 1) (fun j =>
      c <- load u i j ;;
      e <- load u (i + 1) j ;;
      c1 <- load u i j ;;
      w <- load u (i - 1) j ;;
      n <- load u i (j + 1) ;;
      c2 <- load u i j ;;
      s <- load u i (j - 1) ;;
      store_cell newU i j (stencil c e c1 w n c2 s))) ;;
  ret newU.

Definition temperatureToColor (temp minTemp maxTemp : num) : color :=
  let normalized :=
    Math_max (of_Z 0)
      (Math_min (of_Z 1) ((temp - minTemp) / (maxTemp - minTemp))) in
  if ltb normalized lit_quarter then
    let t := normalized * of_Z 4 in
    rgb (Math_floor (of_Z 0 * (of_Z 1 - t) + of_Z 0 * t))
        (Math_floor (of_Z 0 * (of_Z 1 - t) + of_Z 255 * t))
        (Math_floor (of_Z 255 * (of_Z 1 - t) + of_Z 255 * t))
  else if ltb normalized lit_half then
    let t := (normalized - lit_quarter) * of_Z 4 in
    rgb (Math_floor (of_Z 0 * (of_Z 1 - t) + of_Z 0 * t))
        (Math_floor (of_Z 255 * (of_Z 1 - t) + of_Z 255 * t))
        (Math_floor (of_Z 255 * (of_Z 1 - t) + of_Z 0 * t))
  else if ltb normalized lit_three_quarters then
    let t := (normalized - lit_half) * of_Z 4 in
    rgb (Math_floor (of_Z 0 * (of_Z 1 - t) + of_Z 255 * t))
        (Math_floor (of_Z 255 * (of_Z 1 - t) + of_Z 255 * t))
        (Math_floor (of_Z 0 * (of_Z 1 - t) + of_Z 0 * t))
  else
    let t := (normalized - lit_three_quarters) * of_Z 4 in
    rgb (Math_floor (of_Z 255 * (of_Z 1 - t) + of_Z 255 * t))
        (Math_floor (of_Z 255 * (of_Z 1 - t) + of_Z 0 * t))
        (Math_floor (of_Z 0 * (of_Z 1 - t) + of_Z 0 * t)).

(** [canvasRef.current] together with its 2D context. *)
Definition current_canvas : M (option canvas) :=
  fun s => Some (screen s, s).

Definition renderHeatMap (u : grid) : M unit :=
  c <- current_canvas ;;
  match c with
  | None => ret tt
  | Some c =>
      let nx := Z.of_nat (length u) in
      ny <- row_length u 0 ;;
      let cellWidth := width c / of_Z nx in
      let cellHeight := height c / of_Z ny in
      t0 <- load u 0 0 ;;
      t1 <- load u 0 0 ;;
      range <- for_fold 0 nx (fun i acc =>
                 for_fold 0 ny (fun j acc =>
                   a <- load u i j ;;
                   b <- load u i j ;;
                   ret (Math_min (fst acc) a, Math_max (snd acc) b)) acc)
               (t0, t1) ;;
      let minTemp := fst range in
      let maxTemp := snd range in
      emit (ClearRect (of_Z 0) (of_Z 0) (width c) (height c)) ;;
      for_range 0 nx (fun i =>
        for_range 0 ny (fun j =>
          v <- load u i j ;;
          emit (FillRect (temperatureToColor v minTemp maxTemp)
                  (of_Z i * cellWidth)
                  (of_Z (ny - 1 - j) * cellHeight)
                  cellWidth cellHeight))) ;;
      for_range 0 (nx + 1) (fun i =>
        emit (StrokeLine (of_Z i * cellWidth) (of_Z 0)
                (of_Z i * cellWidth) (height c))) ;;
      for_range 0 (ny + 1) (fun j =>
        emit (StrokeLine (of_Z 0) (of_Z j * cellHeight)
                (width c) (of_Z j * cellHeight)))
  end.

(** [interface SimulationState] *)
Record SimulationState : Type := {
  u : grid;
  time : num;
  isRunning : bool;
  animationId : option num
}.

(** The state updater that [animate] passes to [setSimulation]: one step
    of the simulation. *)
Definition animate (prev : SimulationState) : M SimulationState :=
  if negb (isRunning prev) then ret prev
  else
    newU <- solveHeatEquation (u prev) ;;
    applyBoundaryConditions newU ;;
    let newTime := time prev + dt params in
    if geb newTime (totalTime params) then
      ret {| u := newU;
             time := of_Z 0;
             isRunning := false;
             animationId := animationId prev |}
    else
      renderHeatMap newU ;;
      ret {| u := newU;
             time := newTime;
             isRunning := isRunning prev;
             animationId := animationId prev |}.

(** The state that [initializeSimulation] sets. *)
Definition initializeSimulation : M SimulationState :=
  initialGrid <- initializeGrid ;;
  applyBoundaryConditions initialGrid ;;
  renderHeatMap initialGrid ;;
  ret {| u := initialGrid;
         time := of_Z 0;
         isRunning := false;
         animationId := None |}.

(** The updater of [startSimulation]. *)
Definition startSimulation (prev : SimulationState) : SimulationState :=
  {| u := u prev;
     time := time prev;
     isRunning := true;
     animationId := animationId prev |}.

(** The updater of [pauseSimulation]; cancelling the pending frame is the
    scheduler's business. *)
Definition pauseSimulation (prev : SimulationState) : SimulationState :=
  {| u := u prev;
     time := time prev;
     isRunning := false;
     animationId := animationId prev |}.

(** [resetSimulation]: once the pending frame is cancelled, it is
    [initializeSimulation]. *)
Definition resetSimulation : M SimulationState := initializeSimulation.

(** [n] animation frames in a row. *)
Fixpoint frames (n : nat) (st : SimulationState) : M SimulationState :=
  match n with
  | O => ret st
  | S n' => st' <- animate st ;; frames n' st'
  end.

End WithParams.

End Model.

Notation "x <- m ;; k" := (bind m (fun x => k))
  (at level 100, m at next level, right associativity).
Notation "m ;; k" := (bind m (fun _ => k))
  (at level 100, right associativity).

Abbreviation row num := (list num) (only parsing).
Abbreviation grid := (list nat) (only parsing).

Arguments store num : clear implicits.
Arguments color num : clear implicits.
Arguments HeatEquationParams num : clear implicits.
Arguments SimulationState num : clear implicits.

(** ** Reading a store *)

Section Views.

Context {num : Type} {JN : JsNumber num}.

(** The number that [g[i][j]] reads in the store [s]. *)
Definition peek (s : store num) (g : grid) (i j : Z) : num :=
  match zlookup g i with
  | Some a =>
      match rows s !! a with
      | Some r => row_get r j
      | None => NaN
      end
  | None => NaN
  end.

(** The field held by [g]: its rows, by value. *)
Definition snapshot (s : store num) (g : grid) : list (row num) :=
  (fun a => default [] (rows s !! a)) <$> g.

(** [g] is a rectangular [nx] by [ny] array of allocated rows. *)
Definition rect (s : store num) (g : grid) (nx ny : Z) : Prop :=
  Z.of_nat (length g) = nx /\
  Forall (fun a => (fun r : row num => Z.of_nat (length r)) <$> rows s !! a = Some ny) g.

(** ... whose rows are distinct arrays. *)
Definition shaped (s : store num) (g : grid) (nx ny : Z) : Prop :=
  rect s g nx ny /\ NoDup g.

(** Only rows of [g] differ between [s] and [s']. *)
Definition same_outside (g : grid) (s s' : store num) : Prop :=
  console s' = console s /\
  screen s' = screen s /\
  length (rows s') = length (rows s) /\
  forall a, a ∉ g -> rows s' !! a = rows s !! a.

End Views.

(** ** Cells, clocks and quiet computations

    The vocabulary of the statements below: what the loops of each function
    do to the cells of a field, and what a frame does to the clock. *)

Section Vocabulary.

Context {num : Type} {JN : JsNumber num} {JT : JsTrig num}.

Implicit Types (p : HeatEquationParams num) (v : Z -> Z -> num).

Local Open Scope num_scope.

(** The stencil expression at cell [(i, j)] of the field [v]. *)
Definition stencil_at p (v : Z -> Z -> num) (i j : Z) : num :=
  stencil p (v i j) (v (i + 1)%Z j) (v i j) (v (i - 1)%Z j)
            (v i (j + 1)%Z) (v i j) (v i (j - 1)%Z).

(** The lines [solveHeatEquation] adds to the console. *)
Definition stability_warning p : list string :=
  if gtb (rx p + ry p) lit_half then [stability_message] else [].

(** The cells after the solver's loops. *)
Definition solve_cells p (nx ny : Z) (v : Z -> Z -> num) (i j : Z) : num :=
  if decide ((1 <= i < nx - 1)%Z /\ (1 <= j < ny - 1)%Z)
  then stencil_at p v i j else v i j.

(** The value the bottom loop assigns to [u[i][0]]. *)
Definition bottom_value p (i : Z) : num :=
  Math_sin (Math_PI * (of_Z i * dx p) / Lx p).

(** What each of the four loops does to the cells [v] of an [nx] by [ny]
    field. *)
Definition bc_bottom p (nx : Z) v (i j : Z) : num :=
  if decide (j = 0 /\ 0 <= i < nx)%Z then bottom_value p i else v i j.

Definition bc_left p (ny : Z) v (i j : Z) : num :=
  if decide (i = 0 /\ 0 <= j < ny)%Z then v 1%Z j - fL p * dx p else v i j.

Definition bc_right p (nx ny : Z) v (i j : Z) : num :=
  if decide (i = nx - 1 /\ 0 <= j < ny)%Z
  then v (nx - 2)%Z j + fR p * dx p else v i j.

Definition bc_top p (nx ny : Z) v (i j : Z) : num :=
  if decide (j = ny - 1 /\ 0 <= i < nx)%Z
  then v i (ny - 2)%Z + fT p * dy p else v i j.

Definition bc_cells p (nx ny : Z) v : Z -> Z -> num :=
  bc_top p nx ny (bc_right p nx ny (bc_left p ny (bc_bottom p nx v))).

(** The value [initializeGrid] assigns to [u[i][j]]. *)
Definition initial_value p (i j : Z) : num :=
  Math_cos (Math_PI * (of_Z j * dy p) / (of_Z 2 * Ly p))
  * Math_sin (Math_PI * (of_Z i * dx p) / Lx p).

(** The numbers [nx] and [ny] that [initializeGrid] computes. *)
Definition grid_nx p : num := Math_floor (Lx p / dx p) + of_Z 1.
Definition grid_ny p : num := Math_floor (Ly p / dy p) + of_Z 1.

(** A computation is quiet from [s0] when, in every store with the rows and
    console of [s0], it returns without throwing and leaves such a store
    again: it may only paint. *)
Definition quiet (s0 t : store num) : Prop :=
  rows t = rows s0 /\ console t = console s0.

Definition quiet_run {A} (s0 : store num) (m : M A) : Prop :=
  forall t, quiet s0 t -> exists a t', m t = Some (a, t') /\ quiet s0 t'.

(** What one frame does to [time] and [isRunning]. *)
Definition tick p (c : num * bool) : num * bool :=
  if negb (snd c) then c
  else if geb (fst c + dt p) (totalTime p) then (of_Z 0, false)
       else (fst c + dt p, true).

Fixpoint ticks p (n : nat) (c : num * bool) : num * bool :=
  match n with
  | O => c
  | S n' => ticks p n' (tick p c)
  end.

End Vocabulary.

(** ** What the renderer paints, and what a run writes *)

Section Painting.

Context {num : Type} {JN : JsNumber num}.

Implicit Types (v : Z -> Z -> num).

Local Open Scope num_scope.

(** The values a loop counter takes from [lo] up to, not including, [hi]. *)
Definition zrange (lo hi : Z) : list Z :=
  (fun k => (lo + Z.of_nat k)%Z) <$> seq 0 (Z.to_nat (hi - lo)).

(** The scan for [minTemp] and [maxTemp]: both start at [u[0][0]] and every
    cell is folded in, column by column. *)
Definition scan_column v (ny i : Z) (acc : num * num) : num * num :=
  fold_left (fun acc j => (Math_min (fst acc) (v i j), Math_max (snd acc) (v i j)))
            (zrange 0 ny) acc.

Definition scan_field v (nx ny : Z) : num * num :=
  fold_left (fun acc i => scan_column v ny i acc) (zrange 0 nx)
            (v 0%Z 0%Z, v 0%Z 0%Z).

(** The store after the calls [ds] on the 2D context. *)
Definition paint (s : store num) (ds : list (@draw num)) : store num :=
  {| rows := rows s;
     console := console s;
     screen :=
       match screen s with
       | Some c => Some {| width := width c;
                           height := height c;
                           drawn := drawn c ++ ds |}
       | None => None
       end |}.

(** The calls of one [renderHeatMap] on a canvas of [w] by [h] pixels:
    the clear, the cells column by column with the row [j] drawn at raster
    row [ny - 1 - j], the vertical lines and the horizontal lines. *)
Definition cell_fills (w h : num) v (nx ny : Z) : list (@draw num) :=
  concat ((fun i =>
    concat ((fun j =>
      [FillRect (temperatureToColor (v i j)
                   (fst (scan_field v nx ny)) (snd (scan_field v nx ny)))
                (of_Z i * (w / of_Z nx))
                (of_Z (ny - 1 - j) * (h / of_Z ny))
                (w / of_Z nx) (h / of_Z ny)]) <$> zrange 0 ny))
    <$> zrange 0 nx).

Definition vertical_lines (w h : num) (nx : Z) : list (@draw num) :=
  (fun i => StrokeLine (of_Z i * (w / of_Z nx)) (of_Z 0)
                       (of_Z i * (w / of_Z nx)) h) <$> zrange 0 (nx + 1).

Definition horizontal_lines (w h : num) (ny : Z) : list (@draw num) :=
  (fun j => StrokeLine (of_Z 0) (of_Z j * (h / of_Z ny))
                       w (of_Z j * (h / of_Z ny))) <$> zrange 0 (ny + 1).

Definition frame_draws (w h : num) v (nx ny : Z) : list (@draw num) :=
  ClearRect (of_Z 0) (of_Z 0) w h
  :: cell_fills w h v nx ny ++ vertical_lines w h nx ++ horizontal_lines w h ny.

(** The number of frames, among the next [n], that find the simulation
    running. *)
Fixpoint live_frames (p : HeatEquationParams num) (n : nat) (c : num * bool) : nat :=
  match n with
  | O => O
  | S n' => if snd c then S (live_frames p n' (tick p c)) else O
  end.

End Painting.

(** ** Parameters and sample fields *)

(** A store with no arrays, an empty console and no canvas. *)
Definition blank_store {num : Type} : store num := {|
  rows := [];
  console := [];
  screen := None
|}.

(** The initial value of the [params] state, in binary64 ... *)
Definition default_params_float : HeatEquationParams float := {|
  Lx := 2.0%float;
  Ly := 1.5%float;
  fL := 0.0%float;
  fR := 0.0%float;
  fT := 0.0%float;
  alpha := 0.1%float;
  dt := 0.001%float;
  dx := 0.05%float;
  dy := 0.05%float;
  totalTime := 5.0%float;
  gridResolution := 50%float
|}.

(** ... and their decimal values read as fractions.  These are not the
    numbers binary64 holds: [0.05] is held as a number above 1/20. *)
Definition default_params_exact : HeatEquationParams rnum := {|
  Lx := Fin 2;
  Ly := Fin (3 / 2);
  fL := Fin 0;
  fR := Fin 0;
  fT := Fin 0;
  alpha := Fin (1 / 10);
  dt := Fin (1 / 1000);
  dx := Fin (1 / 20);
  dy := Fin (1 / 20);
  totalTime := Fin 5;
  gridResolution := Fin 50
|}.

(** The default parameters with the time step [0.02]. *)
Definition coarse_params_float : HeatEquationParams float := {|
  Lx := 2.0%float;
  Ly := 1.5%float;
  fL := 0.0%float;
  fR := 0.0%float;
  fT := 0.0%float;
  alpha := 0.1%float;
  dt := 0.02%float;
  dx := 0.05%float;
  dy := 0.05%float;
  totalTime := 5.0%float;
  gridResolution := 50%float
|}.

(** A store with one 3 by 3 field and no canvas, and the grid of that
    field. *)
Definition sample_store : store float := {|
  rows := [[1; 2; 3]; [4; 9; 6]; [7; 8; 10]]%float;
  console := [];
  screen := None
|}.

Definition sample_grid : grid := [0; 1; 2]%nat.

(** A statement about the binary64 code that holds whatever the engine's
    [Math.PI], [Math.sin] and [Math.cos] are. *)
Definition any_engine (P : JsTrig float -> Prop) : Prop :=
  forall JT : JsTrig float, P JT.

(** Parameters that binary64 holds exactly, with [dy = 2^30]. *)
Definition sharp_params_float : HeatEquationParams float := {|
  Lx := 2.0%float;
  Ly := 1.5%float;
  fL := 0.0%float;
  fR := 0.0%float;
  fT := 0.0%float;
  alpha := 1%float;
  dt := 0.5%float;
  dx := 1%float;
  dy := 1073741824%float;
  totalTime := 5.0%float;
  gridResolution := 50%float
|}.

(** The default parameters on a plate of five billion cells across. *)
Definition wide_params_float : HeatEquationParams float := {|
  Lx := 5000000000%float;
  Ly := 1.5%float;
  fL := 0.0%float;
  fR := 0.0%float;
  fT := 0.0%float;
  alpha := 0.1%float;
  dt := 0.001%float;
  dx := 1%float;
  dy := 0.05%float;
  totalTime := 5.0%float;
  gridResolution := 50%float
|}.

(** The default parameters on a plate narrower than one cell. *)
Definition narrow_params_float : HeatEquationParams float := {|
  Lx := 0.01%float;
  Ly := 1.5%float;
  fL := 0.0%float;
  fR := 0.0%float;
  fT := 0.0%float;
  alpha := 0.1%float;
  dt := 0.001%float;
  dx := 0.05%float;
  dy := 0.05%float;
  totalTime := 5.0%float;
  gridResolution := 50%float
|}.

(** The default parameters with a flux of 1 through the left and the top
    edge, and a 3 by 3 field with 2 in the middle. *)
Definition flux_params_float : HeatEquationParams float := {|
  Lx := 2.0%float;
  Ly := 1.5%float;
  fL := 1%float;
  fR := 0.0%float;
  fT := 1%float;
  alpha := 0.1%float;
  dt := 0.001%float;
  dx := 0.05%float;
  dy := 0.05%float;
  totalTime := 5.0%float;
  gridResolution := 50%float
|}.

Definition corner_store : store float := {|
  rows := [[1; 2; 3]; [4; 2; 6]; [7; 8; 10]]%float;
  console := [];
  screen := None
|}.

(** The default parameters with a run of three steps: [dt = 0.4],
    [totalTime = 1]. *)
Definition brief_params_float : HeatEquationParams float := {|
  Lx := 2.0%float;
  Ly := 1.5%float;
  fL := 0.0%float;
  fR := 0.0%float;
  fT := 0.0%float;
  alpha := 0.1%float;
  dt := 0.4%float;
  dx := 0.05%float;
  dy := 0.05%float;
  totalTime := 1%float;
  gridResolution := 50%float
|}.

(** A 2 by 2 field in binary64 with a negative zero and a repeated
    value. *)
Definition easel_cells_float (i j : Z) : float :=
  if decide (i = 0) then (if decide (j = 0) then 2%float else (-0)%float)
  else (if decide (j = 0) then 7%float else 2%float).

(** A plate of 3 by 2 cells in exact arithmetic: [Lx = 2], [dx = 1],
    [Ly = 1], [dy = 1], no flux, all cells zero. *)
Definition plate_params : HeatEquationParams rnum := {|
  Lx := Fin 2;
  Ly := Fin 1;
  fL := Fin 0;
  fR := Fin 0;
  fT := Fin 0;
  alpha := Fin (1 / 10);
  dt := Fin (1 / 1000);
  dx := Fin 1;
  dy := Fin 1;
  totalTime := Fin 5;
  gridResolution := Fin 50
|}.

Definition plate_store : store rnum := {|
  rows := [[Fin 0; Fin 0]; [Fin 0; Fin 0]; [Fin 0; Fin 0]];
  console := [];
  screen := None
|}.

Definition plate_grid : grid := [0; 1; 2]%nat.




(** The plate at time 5 with the simulation running. *)
Definition plate_last_state : SimulationState rnum := {|
  u := plate_grid;
  time := Fin 5;
  isRunning := true;
  animationId := None
|}.

(** A field of 2 by 2 cells in front of a canvas of 200 by 100 pixels. *)
Definition easel_store : store rnum := {|
  rows := [[Fin 0; Fin 1]; [Fin 2; Fin 4]];
  console := [];
  screen := Some {| width := Fin 200; height := Fin 100; drawn := [] |}
|}.

Definition easel_grid : grid := [0; 1]%nat.

Definition easel_values (i j : Z) : R :=
  if decide (i = 0) then (if decide (j = 0) then 0 else 1)
  else (if decide (j = 0) then 2 else 4).

(** ** Properties of the primitives *)

(** Split on every [decide] of the goal; the branches either agree or
    contradict each other by linear arithmetic on the indices. *)
Ltac cases_done :=
  repeat case_decide;
  first [ done
        | by repeat match goal with H : _ /\ _ |- _ => destruct H end; subst
        | exfalso; lia ].

Section Primitives.

Context {num : Type} {JN : JsNumber num}.

Implicit Types (s t : store num) (g : grid) (r : row num).

Lemma zlookup_Some {A} (l : list A) (i : Z) :
  0 <= i < Z.of_nat (length l) -> exists x, zlookup l i = Some x /\ l !! Z.to_nat i = Some x.
Proof.
  intros Hi. unfold zlookup.
  destruct (Z.ltb_spec i 0) as [|_]; [lia|].
  destruct (lookup_lt_is_Some_2 l (Z.to_nat i)) as [x Hx]; [lia|].
  exists x. by rewrite Hx.
Qed.

Lemma zlookup_None {A} (l : list A) (i : Z) :
  ~ 0 <= i < Z.of_nat (length l) -> zlookup l i = None.
Proof.
  intros Hi. unfold zlookup.
  destruct (Z.ltb_spec i 0) as [|Hge]; [done|].
  apply lookup_ge_None_2. lia.
Qed.

Lemma zlookup_inj (g : grid) (i i' : Z) (a : nat) :
  NoDup g -> zlookup g i = Some a -> zlookup g i' = Some a -> i = i'.
Proof.
  unfold zlookup. intros Hnd.
  destruct (Z.ltb_spec i 0); [done|].
  destruct (Z.ltb_spec i' 0); [done|].
  intros Hi Hi'.
  assert (Z.to_nat i = Z.to_nat i') by (eapply NoDup_lookup; eauto).
  lia.
Qed.

Lemma zlookup_elem_of {A} (l : list A) (i : Z) (x : A) :
  zlookup l i = Some x -> x ∈ l.
Proof.
  unfold zlookup. destruct (i <? 0); [done|].
  apply list_elem_of_lookup_2.
Qed.

Lemma row_get_set r (j b : Z) (v : num) :
  0 <= j < Z.of_nat (length r) ->
  row_get (row_set r j v) b = if decide (b = j) then v else row_get r b.
Proof.
  intros Hj. unfold row_set, row_get, zlookup.
  destruct (Z.ltb_spec j 0); [lia|].
  destruct (Z.ltb_spec j (Z.of_nat (length r))); [|lia].
  destruct (Z.ltb_spec b 0).
  - destruct (decide (b = j)); [lia|done].
  - destruct (decide (b = j)) as [->|Hne].
    + rewrite list_lookup_insert_eq; [done|lia].
    + rewrite list_lookup_insert_ne; [done|lia].
Qed.

Lemma row_set_length r (j : Z) (v : num) :
  0 <= j < Z.of_nat (length r) -> length (row_set r j v) = length r.
Proof.
  intros Hj. unfold row_set.
  destruct (Z.ltb_spec j 0); [lia|].
  destruct (Z.ltb_spec j (Z.of_nat (length r))); [|lia].
  apply length_insert.
Qed.

Lemma rect_row s g nx ny (i : Z) :
  rect s g nx ny -> 0 <= i < nx ->
  exists a r, zlookup g i = Some a /\ rows s !! a = Some r /\
              Z.of_nat (length r) = ny.
Proof.
  intros [Hlen Hall] Hi.
  destruct (zlookup_Some g i) as (a & Ha & Ha'); [lia|].
  rewrite Forall_lookup in Hall. specialize (Hall _ _ Ha').
  destruct (rows s !! a) as [r|] eqn:Hr; [|done].
  exists a, r. simpl in Hall. by simplify_eq.
Qed.

Lemma peek_outside s g nx ny (i j : Z) :
  rect s g nx ny -> ~ (0 <= i < nx /\ 0 <= j < ny) -> peek s g i j = NaN.
Proof.
  intros Hr Hij. unfold peek.
  destruct (decide (0 <= i < nx)) as [Hi|Hi].
  - destruct (rect_row _ _ _ _ _ Hr Hi) as (a & r & -> & -> & Hlen).
    unfold row_get. rewrite zlookup_None; [done|lia].
  - destruct Hr as [Hlen _]. rewrite zlookup_None; [done|lia].
Qed.

Lemma load_spec s g nx ny (i j : Z) :
  rect s g nx ny -> 0 <= i < nx ->
  load g i j s = Some (peek s g i j, s).
Proof.
  intros Hr Hi.
  destruct (rect_row _ _ _ _ _ Hr Hi) as (a & r & Ha & Hrow & _).
  unfold load, peek, bind, grid_row, read_row, ret. by rewrite Ha, Hrow.
Qed.

Lemma row_length_spec s g nx ny (i : Z) :
  rect s g nx ny -> 0 <= i < nx ->
  row_length g i s = Some (ny, s).
Proof.
  intros Hr Hi.
  destruct (rect_row _ _ _ _ _ Hr Hi) as (a & r & Ha & Hrow & Hlen).
  unfold row_length, bind, grid_row, read_row, ret. by rewrite Ha, Hrow, Hlen.
Qed.

Lemma same_outside_refl g s : same_outside g s s.
Proof. by repeat split. Qed.

Lemma same_outside_trans g s1 s2 s3 :
  same_outside g s1 s2 -> same_outside g s2 s3 -> same_outside g s1 s3.
Proof.
  intros (?&?&?&Hout1) (?&?&?&Hout2). repeat split; try congruence.
  intros a Ha. rewrite Hout2, Hout1; done.
Qed.

(** Rows outside the written grid keep their contents, so another grid that
    shares no row with it reads the same. *)
Lemma same_outside_peek g g' s s' (i j : Z) :
  same_outside g s s' -> (forall a, a ∈ g' -> a ∉ g) ->
  peek s' g' i j = peek s g' i j.
Proof.
  intros (_&_&_&Hout) Hdisj. unfold peek.
  destruct (zlookup g' i) as [a|] eqn:Ha; [|done].
  rewrite Hout; [done|]. apply Hdisj. by eapply zlookup_elem_of.
Qed.

Lemma same_outside_rect g g' s s' nx ny :
  same_outside g s s' -> (forall a, a ∈ g' -> a ∉ g) ->
  rect s g' nx ny -> rect s' g' nx ny.
Proof.
  intros (_&_&_&Hout) Hdisj [Hlen Hall]. split; [done|].
  rewrite Forall_forall in *. intros a Ha.
  rewrite Hout; auto.
Qed.

Lemma same_outside_snapshot g g' s s' :
  same_outside g s s' -> (forall a, a ∈ g' -> a ∉ g) ->
  snapshot s' g' = snapshot s g'.
Proof.
  intros (_&_&_&Hout) Hdisj. unfold snapshot.
  apply list_fmap_ext. intros k a Hk.
  rewrite Hout; [done|]. apply Hdisj. by eapply list_elem_of_lookup_2.
Qed.

(** The assignment [g[i][j] = v] inside the rectangle. *)
Lemma store_cell_spec s g nx ny (i j : Z) (v : num) :
  shaped s g nx ny -> 0 <= i < nx -> 0 <= j < ny ->
  exists s',
    store_cell g i j v s = Some (tt, s') /\
    shaped s' g nx ny /\
    same_outside g s s' /\
    forall a b, peek s' g a b = if decide (a = i /\ b = j) then v else peek s g a b.
Proof.
  intros [Hr Hnd] Hi Hj.
  destruct (rect_row _ _ _ _ _ Hr Hi) as (addr & r & Ha & Hrow & Hlen).
  unfold store_cell, bind, grid_row, read_row, write_row, ret.
  rewrite Ha, Hrow. eexists. split; [done|].
  assert (Haddr : (addr < length (rows s))%nat) by (by eapply lookup_lt_Some).
  split; [|split].
  - split; [|done]. destruct Hr as [Hlen' Hall]. split; [done|].
    rewrite Forall_forall in *. intros a' Ha'. simpl.
    destruct (decide (a' = addr)) as [->|Hne].
    + rewrite list_lookup_insert_eq by done. simpl.
      rewrite row_set_length by lia. by rewrite Hlen.
    + rewrite list_lookup_insert_ne by done. auto.
  - repeat split; simpl; [by rewrite length_insert|].
    intros a' Ha'. rewrite list_lookup_insert_ne; [done|].
    intros ->. apply Ha'. by eapply zlookup_elem_of.
  - intros a b. unfold peek; simpl.
    destruct (zlookup g a) as [a'|] eqn:Ha'.
    + destruct (decide (a' = addr)) as [->|Hne].
      * assert (a = i) as -> by (eapply zlookup_inj; eauto).
        rewrite list_lookup_insert_eq by done. rewrite Hrow.
        rewrite row_get_set by lia.
        destruct (decide (b = j)); destruct (decide (i = i /\ b = j)); tauto || done.
      * rewrite list_lookup_insert_ne by done.
        destruct (decide (a = i /\ b = j)) as [[-> _]|]; [congruence|done].
    + destruct (decide (a = i /\ b = j)) as [[-> _]|]; [congruence|done].
Qed.

(** *** Loops *)

Lemma for_loop_inv {A} (I : Z -> A -> store num -> Prop)
    (body : Z -> A -> M A) (n : nat) (i : Z) (acc : A) s :
  I i acc s ->
  (forall k a t, i <= k < i + Z.of_nat n -> I k a t ->
     exists a' t', body k a t = Some (a', t') /\ I (k + 1) a' t') ->
  exists acc' s',
    for_loop n i body acc s = Some (acc', s') /\ I (i + Z.of_nat n) acc' s'.
Proof.
  revert i acc s. induction n as [|n IH]; intros i acc s Hinit Hstep.
  - exists acc, s. simpl. unfold ret. split; [done|].
    by replace (i + Z.of_nat 0) with i by lia.
  - destruct (Hstep i acc s) as (a' & t' & Hb & HI); [lia|done|].
    destruct (IH (i + 1) a' t') as (acc' & s' & Hrun & Hfin); [done| |].
    + intros k a t Hk. apply Hstep. lia.
    + exists acc', s'. simpl. unfold bind. rewrite Hb. split; [done|].
      by replace (i + Z.of_nat (S n)) with (i + 1 + Z.of_nat n) by lia.
Qed.

Lemma for_fold_inv {A} (I : Z -> A -> store num -> Prop)
    (body : Z -> A -> M A) (lo hi : Z) (acc : A) s :
  lo <= hi -> I lo acc s ->
  (forall k a t, lo <= k < hi -> I k a t ->
     exists a' t', body k a t = Some (a', t') /\ I (k + 1) a' t') ->
  exists acc' s', for_fold lo hi body acc s = Some (acc', s') /\ I hi acc' s'.
Proof.
  intros Hle Hinit Hstep. unfold for_fold.
  destruct (for_loop_inv I body (Z.to_nat (hi - lo)) lo acc s) as (acc' & s' & Hrun & Hfin);
    [done| |].
  - intros k a t Hk. apply Hstep. lia.
  - exists acc', s'. split; [done|].
    replace (lo + Z.of_nat (Z.to_nat (hi - lo))) with hi in Hfin by lia. done.
Qed.

Lemma for_range_inv (I : Z -> store num -> Prop)
    (body : Z -> M unit) (lo hi : Z) s :
  lo <= hi -> I lo s ->
  (forall k t, lo <= k < hi -> I k t ->
     exists t', body k t = Some (tt, t') /\ I (k + 1) t') ->
  exists s', for_range lo hi body s = Some (tt, s') /\ I hi s'.
Proof.
  intros Hle Hinit Hstep. unfold for_range.
  destruct (for_fold_inv (fun k _ t => I k t) (fun i _ => body i) lo hi tt s)
    as ([] & s' & Hrun & Hfin); [done|done| |by exists s'].
  intros k [] t Hk HI. destruct (Hstep k t Hk HI) as (t' & Hb & HI').
  by exists tt, t'.
Qed.

End Primitives.

(** ** The stencil step *)

Section Stencil.

Context {num : Type} {JN : JsNumber num}.

Implicit Types (s t : store num) (g : grid) (p : HeatEquationParams num).

Local Open Scope num_scope.

Lemma bind_Some {A B} (m : M A) (f : A -> M B) s (a : A) s' :
  m s = Some (a, s') -> bind m f s = f a s'.
Proof. intros H. unfold bind. by rewrite H. Qed.

(** [u.map(row => [...row])] allocates a copy of every row after the rows
    already in the store. *)
Lemma copy_rows_run g s :
  Forall (fun a => is_Some (rows s !! a)) g ->
  map_M (fun a => r <- read_row a ;; new_row r) g s =
  Some (seq (length (rows s)) (length g),
        {| rows := rows s ++ snapshot s g;
           console := console s;
           screen := screen s |}).
Proof.
  revert s. induction g as [|a g IH]; intros s Hall.
  - simpl. unfold ret. rewrite app_nil_r. by destruct s.
  - apply Forall_cons in Hall as [[r Hr] Hall].
    simpl. unfold bind at 1. unfold bind at 1. unfold read_row at 1.
    rewrite Hr. unfold new_row at 1. unfold bind at 1.
    rewrite IH; cbn [rows console screen].
    + unfold ret. rewrite length_app. simpl length.
      replace (length (rows s) + 1)%nat with (S (length (rows s))) by lia.
      rewrite <- app_assoc. do 4 f_equal. simpl. f_equal.
      apply list_fmap_ext. intros k b Hk.
      rewrite Forall_lookup in Hall. destruct (Hall _ _ Hk) as [rb Hrb].
      cbn [rows]. by rewrite (lookup_app_l_Some _ [r] _ _ Hrb), Hrb.
    + eapply Forall_impl; [exact Hall|]. intros b [rb Hrb].
      exists rb. by apply lookup_app_l_Some.
Qed.

Lemma rect_allocated s g nx ny :
  rect s g nx ny -> Forall (fun a => is_Some (rows s !! a)) g.
Proof.
  intros [_ Hall]. eapply Forall_impl; [exact Hall|].
  intros a Ha. simpl in Ha. destruct (rows s !! a); [by eexists|done].
Qed.

Lemma rect_lt s g nx ny a :
  rect s g nx ny -> a ∈ g -> (a < length (rows s))%nat.
Proof.
  intros Hr Ha. apply rect_allocated in Hr.
  rewrite Forall_forall in Hr. destruct (Hr _ Ha) as [r Hrow].
  by eapply lookup_lt_Some.
Qed.

(** The store after the copy: the new grid is a rectangle of fresh, distinct
    rows holding the values of [g]. *)
Lemma copy_rows_spec s g nx ny :
  rect s g nx ny ->
  let newU := seq (length (rows s)) (length g) in
  let s1 := {| rows := rows s ++ snapshot s g;
               console := console s;
               screen := screen s |} in
  shaped s1 newU nx ny /\
  rect s1 g nx ny /\
  (forall a, a ∈ g -> a ∉ newU) /\
  (forall i j, peek s1 newU i j = peek s g i j) /\
  (forall i j, peek s1 g i j = peek s g i j).
Proof.
  intros Hr newU s1.
  assert (Hpre : forall a r, rows s !! a = Some r -> rows s1 !! a = Some r).
  { intros a r Ha. simpl. by apply lookup_app_l_Some. }
  assert (Hnew : forall k a, g !! k = Some a ->
            rows s1 !! (length (rows s) + k)%nat = Some (default [] (rows s !! a))).
  { intros k a Hk. simpl. rewrite lookup_app_r by lia.
    replace (length (rows s) + k - length (rows s))%nat with k by lia.
    unfold snapshot. rewrite list_lookup_fmap, Hk. done. }
  pose proof Hr as [Hlen Hall].
  split; [split; [split|]|split; [|split; [|split]]].
  - subst newU. by rewrite length_seq.
  - rewrite Forall_lookup. intros k a Hk.
    apply lookup_seq in Hk as [-> Hk].
    destruct (lookup_lt_is_Some_2 g k Hk) as [b Hb].
    rewrite (Hnew _ _ Hb). simpl.
    rewrite Forall_lookup in Hall. specialize (Hall _ _ Hb).
    destruct (rows s !! b); simpl in *; [done|done].
  - apply NoDup_seq.
  - split; [done|]. rewrite Forall_forall in *. intros a Ha.
    specialize (Hall _ Ha). destruct (rows s !! a) as [r|] eqn:Hrow; [|done].
    by rewrite (Hpre _ _ Hrow).
  - intros a Ha Hin. subst newU. apply elem_of_seq in Hin.
    pose proof (rect_lt _ _ _ _ _ Hr Ha). lia.
  - intros i j. unfold peek, zlookup.
    destruct (i <? 0)%Z; [done|]. subst newU.
    destruct (g !! Z.to_nat i) as [b|] eqn:Hb.
    + rewrite (lookup_seq_lt _ _ _ (lookup_lt_Some _ _ _ Hb)).
      rewrite (Hnew _ _ Hb).
      rewrite Forall_lookup in Hall. specialize (Hall _ _ Hb).
      destruct (rows s !! b); [done|done].
    + rewrite lookup_seq_ge; [done|]. by apply lookup_ge_None.
  - intros i j. unfold peek.
    destruct (zlookup g i) as [a|] eqn:Ha; [|done].
    apply zlookup_elem_of in Ha. rewrite Forall_forall in Hall.
    specialize (Hall _ Ha). destruct (rows s !! a) as [r|] eqn:Hrow; [|done].
    by rewrite (Hpre _ _ Hrow).
Qed.

(** The two nested loops of the solver, run on a copy [newU] that shares no
    row with [g]. *)
Lemma stencil_loops p g newU t0 nx ny :
  rect t0 g nx ny -> shaped t0 newU nx ny ->
  (forall a, a ∈ g -> a ∉ newU) ->
  (2 <= nx)%Z -> (2 <= ny)%Z ->
  exists t',
    for_range 1 (nx - 1) (fun i =>
      for_range 1 (ny - 1) (fun j =>
        c <- load g i j ;;
        e <- load g (i + 1) j ;;
        c1 <- load g i j ;;
        w <- load g (i - 1) j ;;
        n <- load g i (j + 1) ;;
        c2 <- load g i j ;;
        s <- load g i (j - 1) ;;
        store_cell newU i j (stencil p c e c1 w n c2 s))) t0 = Some (tt, t') /\
    shaped t' newU nx ny /\
    same_outside newU t0 t' /\
    forall i j,
      peek t' newU i j =
      if decide ((1 <= i < nx - 1)%Z /\ (1 <= j < ny - 1)%Z)
      then stencil_at p (peek t0 g) i j
      else peek t0 newU i j.
Proof.
  intros Hg Hnew Hdisj Hnx Hny.
  pose (F := stencil_at p (peek t0 g)).
  pose (I := fun (k : Z) (t : store num) =>
    shaped t newU nx ny /\ same_outside newU t0 t /\
    forall i j, peek t newU i j =
      if decide ((1 <= i < k)%Z /\ (1 <= j < ny - 1)%Z)
      then F i j else peek t0 newU i j).
  destruct (for_range_inv I
    (fun i => for_range 1 (ny - 1) (fun j =>
        c <- load g i j ;;
        e <- load g (i + 1) j ;;
        c1 <- load g i j ;;
        w <- load g (i - 1) j ;;
        n <- load g i (j + 1) ;;
        c2 <- load g i j ;;
        s <- load g i (j - 1) ;;
        store_cell newU i j (stencil p c e c1 w n c2 s)))
    1 (nx - 1) t0) as (t' & Hrun & Hsh & Hout & Hpeek); [lia| | |].
  - split; [done|]. split; [apply same_outside_refl|].
    intros i j. cases_done.
  - intros k t Hk (Hsh & Hout & Hpeek).
    pose (J := fun (m : Z) (t' : store num) =>
      shaped t' newU nx ny /\ same_outside newU t0 t' /\
      forall i j, peek t' newU i j =
        if decide (((1 <= i < k)%Z /\ (1 <= j < ny - 1)%Z) \/
                   (i = k /\ (1 <= j < m)%Z))
        then F i j else peek t0 newU i j).
    destruct (for_range_inv J
      (fun j =>
        c <- load g k j ;;
        e <- load g (k + 1) j ;;
        c1 <- load g k j ;;
        w <- load g (k - 1) j ;;
        n <- load g k (j + 1) ;;
        c2 <- load g k j ;;
        s <- load g k (j - 1) ;;
        store_cell newU k j (stencil p c e c1 w n c2 s))
      1 (ny - 1) t) as (t' & Hrun & Hsh' & Hout' & Hpeek'); [lia| | |].
    + split; [done|]. split; [done|]. intros i j. rewrite Hpeek.
      cases_done.
    + intros m t1 Hm (Hsh1 & Hout1 & Hpeek1).
      assert (Hg1 : rect t1 g nx ny) by (eapply same_outside_rect; eauto).
      assert (Hpg : forall i j, peek t1 g i j = peek t0 g i j)
        by (intros; eapply same_outside_peek; eauto).
      unfold bind.
      rewrite !(load_spec t1 g nx ny) by (done || lia).
      destruct (store_cell_spec t1 newU nx ny k m
                  (stencil p (peek t1 g k m) (peek t1 g (k + 1) m) (peek t1 g k m)
                     (peek t1 g (k - 1) m) (peek t1 g k (m + 1)) (peek t1 g k m)
                     (peek t1 g k (m - 1))))
        as (t2 & Hst & Hsh2 & Hout2 & Hpeek2); [done|lia|lia|].
      exists t2. split; [done|]. split; [done|].
      split; [by eapply same_outside_trans|].
      intros i j. rewrite Hpeek2, Hpeek1, !Hpg.
      destruct (decide (i = k /\ j = m)) as [[-> ->]|Hne].
      * rewrite decide_True by (right; lia). done.
      * cases_done.
    + exists t'. split; [done|]. split; [done|]. split; [done|].
      intros i j. rewrite Hpeek'. cases_done.
  - exists t'. done.
Qed.

(** [console.warn] leaves the rows alone. *)
Lemma peek_rows s t g (i j : Z) : rows s = rows t -> peek s g i j = peek t g i j.
Proof. intros H. unfold peek. by rewrite H. Qed.

Lemma rect_rows s t g nx ny : rows s = rows t -> rect s g nx ny -> rect t g nx ny.
Proof. intros H [Hlen Hall]. split; [done|]. by rewrite <- H. Qed.

Lemma solveHeatEquation_spec p s g nx ny :
  rect s g nx ny -> (2 <= nx)%Z -> (2 <= ny)%Z ->
  exists newU s',
    solveHeatEquation p g s = Some (newU, s') /\
    shaped s' newU nx ny /\
    rect s' g nx ny /\
    (forall a, a ∈ g -> a ∉ newU) /\
    (forall a r, rows s !! a = Some r -> rows s' !! a = Some r) /\
    console s' = console s ++ stability_warning p /\
    screen s' = screen s /\
    (forall i j, peek s' g i j = peek s g i j) /\
    forall i j,
      peek s' newU i j =
      if decide ((1 <= i < nx - 1)%Z /\ (1 <= j < ny - 1)%Z)
      then stencil_at p (peek s g) i j
      else peek s g i j.
Proof.
  intros Hr Hnx Hny.
  destruct (copy_rows_spec s g nx ny Hr) as (Hsh1 & Hr1 & Hdisj & Hpn & Hpg).
  set (newU := seq (length (rows s)) (length g)) in *.
  set (s1 := {| rows := rows s ++ snapshot s g;
                console := console s; screen := screen s |}) in *.
  set (s2 := {| rows := rows s1;
                console := console s1 ++ stability_warning p;
                screen := screen s1 |}).
  assert (Hrows : rows s1 = rows s2) by done.
  destruct (stencil_loops p g newU s2 nx ny) as (t' & Hrun & Hsh & Hout & Hpeek);
    [by eapply rect_rows|split; [by eapply rect_rows; [|apply Hsh1]|apply Hsh1]
    |done|done|done|].
  exists newU, t'.
  split; [|split; [done|split; [|split; [done|split; [|split; [|split; [|split]]]]]]].
  - unfold solveHeatEquation.
    rewrite (bind_Some _ _ _ _ _ (row_length_spec s g nx ny 0 Hr ltac:(lia))).
    rewrite (bind_Some _ _ _ _ _ (copy_rows_run g s (rect_allocated _ _ _ _ Hr))).
    fold newU s1.
    assert (Hwarn : (if gtb (rx p + ry p) lit_half
                     then console_warn stability_message else ret tt) s1 =
                    Some (tt, s2)).
    { unfold s2, stability_warning. destruct (gtb _ _); unfold console_warn, ret.
      - done.
      - rewrite app_nil_r. by destruct s1. }
    rewrite (bind_Some _ _ _ _ _ Hwarn).
    replace (Z.of_nat (length g)) with nx by (symmetry; apply Hr).
    by rewrite (bind_Some _ _ _ _ _ Hrun).
  - eapply same_outside_rect; [exact Hout|done|]. by eapply rect_rows.
  - intros a r Ha. destruct Hout as (_ & _ & _ & Hout).
    rewrite Hout.
    + simpl. by apply lookup_app_l_Some.
    + subst newU. rewrite elem_of_seq. apply lookup_lt_Some in Ha. lia.
  - by destruct Hout as (-> & _).
  - by destruct Hout as (_ & -> & _).
  - intros i j. rewrite (same_outside_peek _ _ _ _ _ _ Hout Hdisj).
    by rewrite <- (peek_rows s1 s2), Hpg.
  - intros i j. rewrite Hpeek.
    rewrite <- !(peek_rows s1 s2) by done. rewrite Hpn.
    unfold stencil_at. rewrite <- !(peek_rows s1 s2) by done. by rewrite !Hpg.
Qed.

End Stencil.

(** ** The boundary conditions *)

Section Boundary.

Context {num : Type} {JN : JsNumber num} {JT : JsTrig num}.

Implicit Types (s t : store num) (g : grid) (p : HeatEquationParams num).
Implicit Types (v : Z -> Z -> num).

Local Open Scope num_scope.

(** A loop that assigns row [wj] without reading the grid. *)
Lemma row_fill_loop g t0 nx ny (wj : Z) (c : Z -> num) :
  shaped t0 g nx ny -> (0 <= nx)%Z -> (0 <= wj < ny)%Z ->
  exists t',
    for_range 0 nx (fun i => store_cell g i wj (c i)) t0 = Some (tt, t') /\
    shaped t' g nx ny /\
    same_outside g t0 t' /\
    forall i j, peek t' g i j =
      if decide (j = wj /\ 0 <= i < nx)%Z then c i else peek t0 g i j.
Proof.
  intros Hsh Hnx Hwj.
  pose (I := fun (k : Z) (t : store num) =>
    shaped t g nx ny /\ same_outside g t0 t /\
    forall i j, peek t g i j =
      if decide (j = wj /\ 0 <= i < k)%Z then c i else peek t0 g i j).
  destruct (for_range_inv I (fun i => store_cell g i wj (c i)) 0 nx t0)
    as (t' & Hrun & HI); [done| | |by exists t'].
  - split; [done|]. split; [apply same_outside_refl|]. intros i j. cases_done.
  - intros k t Hk (Hsh1 & Hout1 & Hpeek1).
    destruct (store_cell_spec t g nx ny k wj (c k))
      as (t2 & Hst & Hsh2 & Hout2 & Hpeek2); [done|lia|lia|].
    exists t2. split; [done|]. split; [done|].
    split; [by eapply same_outside_trans|].
    intros i j. rewrite Hpeek2, Hpeek1.
    destruct (decide (i = k /\ j = wj)) as [[-> ->]|Hne].
    + by rewrite decide_True by lia.
    + cases_done.
Qed.

(** A loop that assigns row [wj] from row [rj] of the same column. *)
Lemma row_copy_loop g t0 nx ny (wj rj : Z) (f : num -> num) :
  shaped t0 g nx ny -> (0 <= nx)%Z -> (0 <= wj < ny)%Z -> rj <> wj ->
  exists t',
    for_range 0 nx (fun i => x <- load g i rj ;; store_cell g i wj (f x)) t0
      = Some (tt, t') /\
    shaped t' g nx ny /\
    same_outside g t0 t' /\
    forall i j, peek t' g i j =
      if decide (j = wj /\ 0 <= i < nx)%Z then f (peek t0 g i rj)
      else peek t0 g i j.
Proof.
  intros Hsh Hnx Hwj Hne.
  pose (I := fun (k : Z) (t : store num) =>
    shaped t g nx ny /\ same_outside g t0 t /\
    forall i j, peek t g i j =
      if decide (j = wj /\ 0 <= i < k)%Z then f (peek t0 g i rj)
      else peek t0 g i j).
  destruct (for_range_inv I
              (fun i => x <- load g i rj ;; store_cell g i wj (f x)) 0 nx t0)
    as (t' & Hrun & HI); [done| | |by exists t'].
  - split; [done|]. split; [apply same_outside_refl|]. intros i j. cases_done.
  - intros k t Hk (Hsh1 & Hout1 & Hpeek1).
    rewrite (bind_Some _ _ _ _ _ (load_spec t g nx ny k rj (proj1 Hsh1) ltac:(lia))).
    destruct (store_cell_spec t g nx ny k wj (f (peek t g k rj)))
      as (t2 & Hst & Hsh2 & Hout2 & Hpeek2); [done|lia|lia|].
    exists t2. split; [done|]. split; [done|].
    split; [by eapply same_outside_trans|].
    intros i j. rewrite Hpeek2, !Hpeek1.
    destruct (decide (i = k /\ j = wj)) as [[-> ->]|Hne'].
    + rewrite (decide_True (P := (wj = wj /\ 0 <= k < k + 1)%Z)) by lia.
      by rewrite decide_False by lia.
    + cases_done.
Qed.

(** A loop that assigns column [wi] from column [ri] of the same row. *)
Lemma column_copy_loop g t0 nx ny (wi ri : Z) (f : num -> num) :
  shaped t0 g nx ny -> (0 <= ny)%Z -> (0 <= wi < nx)%Z -> (0 <= ri < nx)%Z ->
  ri <> wi ->
  exists t',
    for_range 0 ny (fun j => x <- load g ri j ;; store_cell g wi j (f x)) t0
      = Some (tt, t') /\
    shaped t' g nx ny /\
    same_outside g t0 t' /\
    forall i j, peek t' g i j =
      if decide (i = wi /\ 0 <= j < ny)%Z then f (peek t0 g ri j)
      else peek t0 g i j.
Proof.
  intros Hsh Hny Hwi Hri Hne.
  pose (I := fun (k : Z) (t : store num) =>
    shaped t g nx ny /\ same_outside g t0 t /\
    forall i j, peek t g i j =
      if decide (i = wi /\ 0 <= j < k)%Z then f (peek t0 g ri j)
      else peek t0 g i j).
  destruct (for_range_inv I
              (fun j => x <- load g ri j ;; store_cell g wi j (f x)) 0 ny t0)
    as (t' & Hrun & HI); [done| | |by exists t'].
  - split; [done|]. split; [apply same_outside_refl|]. intros i j. cases_done.
  - intros k t Hk (Hsh1 & Hout1 & Hpeek1).
    rewrite (bind_Some _ _ _ _ _ (load_spec t g nx ny ri k (proj1 Hsh1) Hri)).
    destruct (store_cell_spec t g nx ny wi k (f (peek t g ri k)))
      as (t2 & Hst & Hsh2 & Hout2 & Hpeek2); [done|lia|lia|].
    exists t2. split; [done|]. split; [done|].
    split; [by eapply same_outside_trans|].
    intros i j. rewrite Hpeek2, !Hpeek1.
    destruct (decide (i = wi /\ j = k)) as [[-> ->]|Hne'].
    + rewrite (decide_True (P := (wi = wi /\ 0 <= k < k + 1)%Z)) by lia.
      by rewrite decide_False by lia.
    + cases_done.
Qed.

(** The four loops in sequence. *)
Lemma applyBoundaryConditions_spec p s g nx ny :
  shaped s g nx ny -> (2 <= nx)%Z -> (1 <= ny)%Z ->
  exists s',
    applyBoundaryConditions p g s = Some (tt, s') /\
    shaped s' g nx ny /\
    same_outside g s s' /\
    forall i j, peek s' g i j = bc_cells p nx ny (peek s g) i j.
Proof.
  intros Hsh Hnx Hny.
  destruct (row_fill_loop g s nx ny 0 (bottom_value p))
    as (s1 & Hrun1 & Hsh1 & Hout1 & Hpeek1); [done|lia|lia|].
  destruct (column_copy_loop g s1 nx ny 0 1 (fun x => x - fL p * dx p))
    as (s2 & Hrun2 & Hsh2 & Hout2 & Hpeek2); [done|lia|lia|lia|lia|].
  destruct (column_copy_loop g s2 nx ny (nx - 1) (nx - 2) (fun x => x + fR p * dx p))
    as (s3 & Hrun3 & Hsh3 & Hout3 & Hpeek3); [done|lia|lia|lia|lia|].
  destruct (row_copy_loop g s3 nx ny (ny - 1) (ny - 2) (fun x => x + fT p * dy p))
    as (s4 & Hrun4 & Hsh4 & Hout4 & Hpeek4); [done|lia|lia|lia|].
  exists s4. split; [|split; [done|split]].
  - unfold applyBoundaryConditions.
    rewrite (bind_Some _ _ _ _ _ (row_length_spec s g nx ny 0 (proj1 Hsh) ltac:(lia))).
    replace (Z.of_nat (length g)) with nx by (symmetry; apply Hsh).
    unfold bottom_value in Hrun1.
    rewrite (bind_Some _ _ _ _ _ Hrun1).
    rewrite (bind_Some _ _ _ _ _ Hrun2).
    by rewrite (bind_Some _ _ _ _ _ Hrun3).
  - eauto using same_outside_trans.
  - intros i j. rewrite Hpeek4. unfold bc_cells, bc_top.
    rewrite !Hpeek3. unfold bc_right. rewrite !Hpeek2. unfold bc_left.
    rewrite !Hpeek1. unfold bc_bottom.
    repeat case_decide; done.
Qed.

End Boundary.

(** ** Initialisation *)

Section Initial.

Context {num : Type} {JN : JsNumber num} {JT : JsTrig num}.

Implicit Types (s t : store num) (g : grid) (p : HeatEquationParams num).

Local Open Scope num_scope.

(** A loop that assigns column [wi] without reading the grid. *)
Lemma column_fill_loop g t0 nx ny (wi : Z) (c : Z -> num) :
  shaped t0 g nx ny -> (0 <= ny)%Z -> (0 <= wi < nx)%Z ->
  exists t',
    for_range 0 ny (fun j => store_cell g wi j (c j)) t0 = Some (tt, t') /\
    shaped t' g nx ny /\
    same_outside g t0 t' /\
    forall i j, peek t' g i j =
      if decide (i = wi /\ 0 <= j < ny)%Z then c j else peek t0 g i j.
Proof.
  intros Hsh Hny Hwi.
  pose (I := fun (k : Z) (t : store num) =>
    shaped t g nx ny /\ same_outside g t0 t /\
    forall i j, peek t g i j =
      if decide (i = wi /\ 0 <= j < k)%Z then c j else peek t0 g i j).
  destruct (for_range_inv I (fun j => store_cell g wi j (c j)) 0 ny t0)
    as (t' & Hrun & HI); [done| | |by exists t'].
  - split; [done|]. split; [apply same_outside_refl|]. intros i j. cases_done.
  - intros k t Hk (Hsh1 & Hout1 & Hpeek1).
    destruct (store_cell_spec t g nx ny wi k (c k))
      as (t2 & Hst & Hsh2 & Hout2 & Hpeek2); [done|lia|lia|].
    exists t2. split; [done|]. split; [done|].
    split; [by eapply same_outside_trans|].
    intros i j. rewrite Hpeek2, Hpeek1.
    destruct (decide (i = wi /\ j = k)) as [[-> ->]|Hne].
    + by rewrite decide_True by lia.
    + cases_done.
Qed.

(** [Array(nx).fill(0).map(() => Array(ny).fill(0))] *)
Lemma alloc_rows_run (nyv : num) (ny : Z) (n : nat) s :
  to_length nyv = Some ny ->
  map_M (fun _ : unit => Array_fill_0 nyv) (replicate n tt) s =
  Some (seq (length (rows s)) n,
        {| rows := rows s ++ replicate n (replicate (Z.to_nat ny) (of_Z 0));
           console := console s;
           screen := screen s |}).
Proof.
  intros Hny. revert s. induction n as [|n IH]; intros s.
  - simpl. unfold ret. rewrite app_nil_r. by destruct s.
  - simpl. unfold bind at 1. unfold Array_fill_0 at 1. rewrite Hny.
    unfold new_row at 1. unfold bind at 1. rewrite IH. cbn [rows console screen].
    unfold ret. rewrite length_app. simpl length.
    replace (length (rows s) + 1)%nat with (S (length (rows s))) by lia.
    by rewrite <- app_assoc.
Qed.

Lemma initializeGrid_spec p s nx ny :
  to_length (grid_nx p) = Some nx -> to_length (grid_ny p) = Some ny ->
  (0 <= nx)%Z -> (0 <= ny)%Z ->
  exists g s',
    initializeGrid p s = Some (g, s') /\
    shaped s' g nx ny /\
    (forall a r, rows s !! a = Some r -> rows s' !! a = Some r) /\
    console s' = console s /\
    screen s' = screen s /\
    forall i j, (0 <= i < nx)%Z -> (0 <= j < ny)%Z ->
      peek s' g i j = initial_value p i j.
Proof.
  intros Hnx Hny Hnx0 Hny0.
  set (g := seq (length (rows s)) (Z.to_nat nx)).
  set (s1 := {| rows := rows s ++ replicate (Z.to_nat nx)
                                    (replicate (Z.to_nat ny) (of_Z 0));
                console := console s; screen := screen s |}).
  assert (Hsh1 : shaped s1 g nx ny).
  { split; [split|apply NoDup_seq].
    - subst g. rewrite length_seq. lia.
    - rewrite Forall_lookup. intros k a Hk. apply lookup_seq in Hk as [-> Hk].
      simpl. rewrite lookup_app_r by lia.
      replace (length (rows s) + k - length (rows s))%nat with k by lia.
      rewrite lookup_replicate_2 by done. simpl.
      rewrite length_replicate. f_equal. lia. }
  pose (I := fun (k : Z) (t : store num) =>
    shaped t g nx ny /\ same_outside g s1 t /\
    forall i j, peek t g i j =
      if decide (0 <= i < k /\ 0 <= j < ny)%Z then initial_value p i j
      else peek s1 g i j).
  destruct (for_range_inv I
    (fun i => for_range 0 ny (fun j =>
       store_cell g i j
         (Math_cos (Math_PI * (of_Z j * dy p) / (of_Z 2 * Ly p))
          * Math_sin (Math_PI * (of_Z i * dx p) / Lx p))))
    0 nx s1) as (s' & Hrun & Hsh & Hout & Hpeek); [done| | |].
  - split; [done|]. split; [apply same_outside_refl|]. intros i j. cases_done.
  - intros k t Hk (Hsh2 & Hout2 & Hpeek2).
    destruct (column_fill_loop g t nx ny k (initial_value p k))
      as (t' & Hrun' & Hsh' & Hout' & Hpeek'); [done|lia|lia|].
    exists t'. split; [exact Hrun'|]. split; [done|].
    split; [by eapply same_outside_trans|].
    intros i j. rewrite Hpeek', Hpeek2. cases_done.
  - exists g, s'. split; [|split; [done|split; [|split; [|split]]]].
    + unfold initializeGrid. fold (grid_nx p) (grid_ny p).
      rewrite Hnx, Hny. simpl default.
      rewrite (bind_Some _ _ _ _ _ (alloc_rows_run _ _ _ s Hny)).
      fold g s1. by rewrite (bind_Some _ _ _ _ _ Hrun).
    + intros a r Ha. destruct Hout as (_ & _ & _ & Hout). rewrite Hout.
      * simpl. by apply lookup_app_l_Some.
      * subst g. rewrite elem_of_seq. apply lookup_lt_Some in Ha. lia.
    + by destruct Hout as (-> & _).
    + by destruct Hout as (_ & -> & _).
    + intros i j Hi Hj. rewrite Hpeek. by rewrite decide_True by lia.
Qed.

End Initial.

(** ** The renderer *)

Section Render.

Context {num : Type} {JN : JsNumber num}.

Implicit Types (s t : store num) (g : grid).

Lemma quiet_ret {A} s0 (a : A) : quiet_run s0 (ret a).
Proof. intros t Ht. by exists a, t. Qed.

Lemma quiet_bind {A B} s0 (m : M A) (f : A -> M B) :
  quiet_run s0 m -> (forall a, quiet_run s0 (f a)) -> quiet_run s0 (bind m f).
Proof.
  intros Hm Hf t Ht. destruct (Hm t Ht) as (a & t1 & Hrun & Ht1).
  destruct (Hf a t1 Ht1) as (b & t2 & Hrun2 & Ht2).
  exists b, t2. by rewrite (bind_Some _ _ _ _ _ Hrun).
Qed.

Lemma quiet_for_fold {A} s0 (lo hi : Z) (body : Z -> A -> M A) (acc : A) :
  lo <= hi ->
  (forall k a, lo <= k < hi -> quiet_run s0 (body k a)) ->
  quiet_run s0 (for_fold lo hi body acc).
Proof.
  intros Hle Hbody t Ht.
  destruct (for_fold_inv (fun _ _ t' => quiet s0 t') body lo hi acc t)
    as (acc' & t' & Hrun & Hq); [done|done| |by exists acc', t'].
  intros k a t1 Hk Ht1. by apply Hbody.
Qed.

Lemma quiet_for_range s0 (lo hi : Z) (body : Z -> M unit) :
  lo <= hi ->
  (forall k, lo <= k < hi -> quiet_run s0 (body k)) ->
  quiet_run s0 (for_range lo hi body).
Proof. intros Hle Hbody. apply quiet_for_fold; [done|]. intros k _. apply Hbody. Qed.

Lemma quiet_load s0 g nx ny (i j : Z) :
  rect s0 g nx ny -> 0 <= i < nx -> quiet_run s0 (load g i j).
Proof.
  intros Hr Hi t [Hrows Hcon].
  exists (peek t g i j), t. split; [|done].
  eapply load_spec; [|done]. by eapply rect_rows.
Qed.

Lemma quiet_row_length s0 g nx ny (i : Z) :
  rect s0 g nx ny -> 0 <= i < nx -> quiet_run s0 (row_length g i).
Proof.
  intros Hr Hi t [Hrows Hcon].
  exists ny, t. split; [|done].
  eapply row_length_spec; [|done]. by eapply rect_rows.
Qed.

Lemma quiet_emit s0 (d : draw) : quiet_run s0 (emit d).
Proof. intros t Ht. eexists tt, _. split; [done|]. exact Ht. Qed.

Lemma quiet_current_canvas s0 : quiet_run s0 current_canvas.
Proof. intros t Ht. by exists (screen t), t. Qed.

(** [renderHeatMap] reads the field and paints; it does not throw on a
    rectangle that has a first row. *)
Lemma renderHeatMap_quiet s0 g nx ny :
  rect s0 g nx ny -> 1 <= nx -> quiet_run s0 (renderHeatMap g).
Proof.
  intros Hr Hnx. unfold renderHeatMap.
  replace (Z.of_nat (length g)) with nx by (symmetry; apply Hr).
  assert (Hny : 0 <= ny).
  { destruct (rect_row s0 g nx ny 0 Hr) as (a & r & _ & _ & <-); lia. }
  apply quiet_bind; [apply quiet_current_canvas|]. intros [c|]; [|apply quiet_ret].
  intros t Ht.
  destruct (quiet_row_length s0 g nx ny 0 Hr ltac:(lia) t Ht) as (ny' & t1 & Hlen & Ht1).
  assert (ny' = ny /\ t1 = t) as [-> ->].
  { destruct Ht as [Hrows _].
    rewrite (row_length_spec t g nx ny 0) in Hlen; [by simplify_eq| |lia].
    by eapply rect_rows. }
  rewrite (bind_Some _ _ _ _ _ Hlen). clear Hlen Ht1. revert t Ht.
  change (quiet_run s0
    (t0 <- load g 0 0 ;;
     t1 <- load g 0 0 ;;
     range <- for_fold 0 nx (fun i acc =>
                for_fold 0 ny (fun j acc =>
                  a <- load g i j ;;
                  b <- load g i j ;;
                  ret (Math_min (fst acc) a, Math_max (snd acc) b)) acc)
              (t0, t1) ;;
     emit (ClearRect (of_Z 0) (of_Z 0) (width c) (height c)) ;;
     for_range 0 nx (fun i =>
       for_range 0 ny (fun j =>
         v <- load g i j ;;
         emit (FillRect (temperatureToColor v (fst range) (snd range))
                 (of_Z i * (width c / of_Z nx))%num
                 (of_Z (ny - 1 - j) * (height c / of_Z ny))%num
                 (width c / of_Z nx)%num (height c / of_Z ny)%num))) ;;
     for_range 0 (nx + 1) (fun i =>
       emit (StrokeLine (of_Z i * (width c / of_Z nx))%num (of_Z 0)
               (of_Z i * (width c / of_Z nx))%num (height c))) ;;
     for_range 0 (ny + 1) (fun j =>
       emit (StrokeLine (of_Z 0) (of_Z j * (height c / of_Z ny))%num
               (width c) (of_Z j * (height c / of_Z ny))%num)))).
  repeat first
    [ apply quiet_ret
    | apply quiet_emit
    | eapply quiet_load; [exact Hr|lia]
    | apply quiet_bind; [|intros ?]
    | apply quiet_for_fold; [lia|intros ? ? ?]
    | apply quiet_for_range; [lia|intros ? ?] ].
Qed.

End Render.

(** ** The animation step *)

Section Animation.

Context {num : Type} {JN : JsNumber num} {JT : JsTrig num}.

Implicit Types (s t : store num) (g : grid) (p : HeatEquationParams num).
Implicit Types (st : SimulationState num).

Local Open Scope num_scope.

(** A frame of a stopped simulation returns the state it was given. *)
Lemma animate_stopped p st s :
  isRunning st = false -> animate p st s = Some (st, s).
Proof. intros H. unfold animate. by rewrite H. Qed.

(** A frame of a running simulation: the solver, then the boundary
    conditions on the solver's result, then the test on the new time. *)
Lemma animate_running p st s nx ny :
  isRunning st = true -> rect s (u st) nx ny -> (2 <= nx)%Z -> (2 <= ny)%Z ->
  exists newU s1 s2 s3,
    solveHeatEquation p (u st) s = Some (newU, s1) /\
    applyBoundaryConditions p newU s1 = Some (tt, s2) /\
    shaped s2 newU nx ny /\
    (forall i j, peek s2 newU i j =
                 bc_cells p nx ny (solve_cells p nx ny (peek s (u st))) i j) /\
    quiet s2 s3 /\
    (geb (time st + dt p) (totalTime p) = true -> s3 = s2) /\
    animate p st s =
    Some ({| u := newU;
             time := fst (tick p (time st, true));
             isRunning := snd (tick p (time st, true));
             animationId := animationId st |}, s3).
Proof.
  intros Hrun Hr Hnx Hny.
  destruct (solveHeatEquation_spec p s (u st) nx ny Hr Hnx Hny)
    as (newU & s1 & Hsolve & Hsh1 & _ & _ & _ & _ & _ & _ & Hpeek1).
  destruct (applyBoundaryConditions_spec p s1 newU nx ny Hsh1 Hnx ltac:(lia))
    as (s2 & Hbc & Hsh2 & _ & Hpeek2).
  assert (Hcells : forall i j, peek s2 newU i j =
            bc_cells p nx ny (solve_cells p nx ny (peek s (u st))) i j).
  { intros i j. rewrite Hpeek2.
    unfold bc_cells, bc_top, bc_right, bc_left, bc_bottom.
    rewrite !Hpeek1. done. }
  unfold animate, tick. rewrite Hrun. cbn [negb fst snd].
  rewrite (bind_Some _ _ _ _ _ Hsolve), (bind_Some _ _ _ _ _ Hbc).
  destruct (geb (time st + dt p) (totalTime p)) eqn:Hge.
  - exists newU, s1, s2, s2. unfold ret. repeat first [done|split].
  - destruct (renderHeatMap_quiet s2 newU nx ny (proj1 Hsh2) ltac:(lia) s2)
      as ([] & s3 & Hrender & Hq); [done|].
    exists newU, s1, s2, s3. rewrite (bind_Some _ _ _ _ _ Hrender).
    unfold ret. repeat first [done|split].
Qed.

(** Frames keep the field a rectangle, and move the clock by [tick]. *)
Lemma frames_clock p (n : nat) st s nx ny :
  rect s (u st) nx ny -> (2 <= nx)%Z -> (2 <= ny)%Z ->
  exists st' s',
    frames p n st s = Some (st', s') /\
    rect s' (u st') nx ny /\
    (time st', isRunning st') = ticks p n (time st, isRunning st).
Proof.
  intros Hr Hnx Hny. revert st s Hr.
  induction n as [|n IH]; intros st s Hr.
  - exists st, s. repeat first [done|split].
  - simpl frames. simpl ticks.
    destruct (isRunning st) eqn:Hrun.
    + destruct (animate_running p st s nx ny Hrun Hr Hnx Hny)
        as (newU & s1 & s2 & s3 & _ & _ & Hsh2 & _ & Hq & _ & Hstep).
      rewrite (bind_Some _ _ _ _ _ Hstep).
      match type of Hstep with _ = Some (?x, _) => set (st1 := x) in * end.
      destruct (IH st1 s3) as (st' & s' & Hrest & Hr' & Hclock).
      * cbn [u st1]. eapply rect_rows; [|apply Hsh2]. symmetry. apply Hq.
      * exists st', s'. split; [done|]. split; [done|].
        rewrite Hclock. cbn [time isRunning st1]. by rewrite <- surjective_pairing.
    + rewrite (bind_Some _ _ _ _ _ (animate_stopped p st s Hrun)).
      destruct (IH st s Hr) as (st' & s' & Hrest & Hr' & Hclock).
      exists st', s'. split; [done|]. split; [done|].
      rewrite Hclock, Hrun. unfold tick. done.
Qed.

(** Once stopped, frames change neither the state nor the store. *)
Lemma frames_stopped p (n : nat) st s :
  isRunning st = false -> frames p n st s = Some (st, s).
Proof.
  intros Hrun. induction n as [|n IH]; [done|].
  simpl. by rewrite (bind_Some _ _ _ _ _ (animate_stopped p st s Hrun)).
Qed.

End Animation.

Lemma sample_shaped : shaped sample_store sample_grid 3 3.
Proof.
  split; [split; [reflexivity|repeat constructor]|].
  exact (NoDup_seq 0 3).
Defined.

(** ** The stencil step: shape, boundary cells, interior cells, input *)

Section StencilStep.

Context {num : Type} {JN : JsNumber num}.

Local Open Scope num_scope.

Lemma snapshot_preserved (s s' : store num) (g : grid) nx ny :
  rect s g nx ny ->
  (forall a r, rows s !! a = Some r -> rows s' !! a = Some r) ->
  snapshot s' g = snapshot s g.
Proof.
  intros Hr Hpre. unfold snapshot. apply list_fmap_ext. intros k a Hk.
  apply rect_allocated in Hr. rewrite Forall_lookup in Hr.
  destruct (Hr _ _ Hk) as [r Hrow]. by rewrite (Hpre _ _ Hrow), Hrow.
Qed.

(** C1.  For a field [g] of [nx] by [ny] cells with [nx, ny >= 2],
    [solveHeatEquation] returns a new field of the same shape whose boundary
    cells are those of [g] and whose interior cells are
    [u[i][j] + rx*(u[i+1][j] - 2*u[i][j] + u[i-1][j])
             + ry*(u[i][j+1] - 2*u[i][j] + u[i][j-1])]
    with [rx = alpha*dt/(dx*dx)] and [ry = alpha*dt/(dy*dy)]; the rows of
    the result are new arrays, and every array of the store before the call,
    so the input field, holds the same values after it.  This holds in every
    arithmetic, for all parameters. *)
Theorem solveHeatEquation_stencil_step
    (p : HeatEquationParams num) (s : store num) (g : grid) (nx ny : Z) :
  rect s g nx ny -> (2 <= nx)%Z -> (2 <= ny)%Z ->
  exists newU s',
    solveHeatEquation p g s = Some (newU, s') /\
    shaped s' newU nx ny /\
    (forall i j, (0 <= i < nx)%Z -> (0 <= j < ny)%Z ->
       (i = 0 \/ i = nx - 1 \/ j = 0 \/ j = ny - 1)%Z ->
       peek s' newU i j = peek s g i j) /\
    (forall i j, (1 <= i <= nx - 2)%Z -> (1 <= j <= ny - 2)%Z ->
       peek s' newU i j =
       peek s g i j
       + alpha p * dt p / (dx p * dx p)
         * (peek s g (i + 1) j - of_Z 2 * peek s g i j + peek s g (i - 1) j)
       + alpha p * dt p / (dy p * dy p)
         * (peek s g i (j + 1) - of_Z 2 * peek s g i j + peek s g i (j - 1))) /\
    (forall a, a ∈ g -> a ∉ newU) /\
    (forall a r, rows s !! a = Some r -> rows s' !! a = Some r) /\
    snapshot s' g = snapshot s g.
Proof.
  intros Hr Hnx Hny.
  destruct (solveHeatEquation_spec p s g nx ny Hr Hnx Hny)
    as (newU & s' & Hrun & Hsh & _ & Hdisj & Hpre & _ & _ & _ & Hpeek).
  exists newU, s'. split; [done|]. split; [done|].
  split; [|split; [|split; [done|split; [done|]]]].
  - intros i j Hi Hj Hb. rewrite Hpeek. by rewrite decide_False by lia.
  - intros i j Hi Hj. rewrite Hpeek. by rewrite decide_True by lia.
  - by eapply snapshot_preserved.
Qed.

End StencilStep.

Lemma solveHeatEquation_stencil_step_witness :
  exists newU s',
    solveHeatEquation default_params_float sample_grid sample_store
      = Some (newU, s') /\
    peek s' newU 1 1 = 8.36%float /\
    snapshot s' sample_grid = snapshot sample_store sample_grid.
Proof.
  destruct (solveHeatEquation_stencil_step default_params_float
              sample_store sample_grid 3 3 (proj1 sample_shaped))
    as (newU & s' & Hrun & _ & _ & Hin & _ & _ & Hsnap); [lia|lia|].
  exists newU, s'. split; [exact Hrun|]. split; [|exact Hsnap].
  rewrite (Hin 1 1); [|lia|lia]. vm_compute. reflexivity.
Defined.

(** ** The stability warning *)

Lemma solveHeatEquation_warns {num : Type} {JN : JsNumber num}
    (p : HeatEquationParams num) (s : store num) (g : grid) (nx ny : Z) :
  rect s g nx ny -> 2 <= nx -> 2 <= ny ->
  exists newU s',
    solveHeatEquation p g s = Some (newU, s') /\
    (gtb (rx p + ry p)%num lit_half = true ->
       console s' = console s ++ [stability_message]) /\
    (gtb (rx p + ry p)%num lit_half = false -> console s' = console s) /\
    forall i j, peek s' newU i j = solve_cells p nx ny (peek s g) i j.
Proof.
  intros Hr Hnx Hny.
  destruct (solveHeatEquation_spec p s g nx ny Hr Hnx Hny)
    as (newU & s' & Hrun & _ & _ & _ & _ & Hcon & _ & _ & Hpeek).
  exists newU, s'. split; [done|]. unfold stability_warning in Hcon.
  split; [|split; [|done]]; intros Hgt; rewrite Hgt in Hcon;
    [done|by rewrite app_nil_r in Hcon].
Qed.

(** Reading the number a float holds. *)
Lemma value_finite (x : float) (s : bool) (m : positive) (e : Z) :
  Prim2SF x = S754_finite s m e ->
  F64.value x =
  (if s then - (if 0 <=? e then IZR (Z.pos m * 2 ^ e)
                else IZR (Z.pos m) / IZR (2 ^ (- e)))
   else (if 0 <=? e then IZR (Z.pos m * 2 ^ e)
         else IZR (Z.pos m) / IZR (2 ^ (- e))))%R.
Proof. intros H. unfold F64.value. by rewrite H. Qed.

(** C2.  A step writes the stability warning to the console exactly when
    the test of the code, [rx + ry > 0.5] on the computed
    [rx = alpha*dt/(dx*dx)] and [ry = alpha*dt/(dy*dy)], is true, and
    writes it once.  The warning does not change the step: with or without
    it the call returns, and the cells of the result are the stencil update
    of the input.  This holds in every arithmetic.  In binary64,
    [alpha = 0.1], [dt = 0.001], [dx = dy = 0.05] gives
    [rx + ry = 0.07999999999999999] and does not warn, and the same with
    [dt = 0.02] gives [1.5999999999999996] and warns. *)
Theorem solveHeatEquation_stability_warning :
  (forall (num : Type) (JN : JsNumber num)
          (p : HeatEquationParams num) (s : store num) (g : grid) (nx ny : Z),
     rect s g nx ny -> 2 <= nx -> 2 <= ny ->
     exists newU s',
       solveHeatEquation p g s = Some (newU, s') /\
       (gtb (rx p + ry p)%num lit_half = true ->
          console s' = console s ++ [stability_message]) /\
       (gtb (rx p + ry p)%num lit_half = false -> console s' = console s) /\
       forall i j, peek s' newU i j = solve_cells p nx ny (peek s g) i j) /\
  (rx default_params_float + ry default_params_float)%num
  = 0.07999999999999999%float /\
  gtb (rx default_params_float + ry default_params_float)%num lit_half = false /\
  (rx coarse_params_float + ry coarse_params_float)%num
  = 1.5999999999999996%float /\
  gtb (rx coarse_params_float + ry coarse_params_float)%num lit_half = true.
Proof.
  split; [|split; [|split; [|split]]].
  - intros num JN. apply solveHeatEquation_warns.
  - vm_compute. reflexivity.
  - vm_compute. reflexivity.
  - vm_compute. reflexivity.
  - vm_compute. reflexivity.
Qed.

Lemma solveHeatEquation_stability_warning_witness :
  (exists newU s',
     solveHeatEquation coarse_params_float sample_grid sample_store
       = Some (newU, s') /\
     console s' = [stability_message]) /\
  (exists newU s',
     solveHeatEquation default_params_float sample_grid sample_store
       = Some (newU, s') /\
     console s' = []).
Proof.
  destruct solveHeatEquation_stability_warning
    as (Hstep & _ & Hfine & _ & Hcoarse).
  split.
  - destruct (Hstep float float_number coarse_params_float sample_store
                sample_grid 3 3 (proj1 sample_shaped))
      as (newU & s' & Hrun & Hwarn & _); [lia|lia|].
    exists newU, s'. split; [exact Hrun|]. exact (Hwarn Hcoarse).
  - destruct (Hstep float float_number default_params_float sample_store
                sample_grid 3 3 (proj1 sample_shaped))
      as (newU & s' & Hrun & _ & Hquiet & _); [lia|lia|].
    exists newU, s'. split; [exact Hrun|]. exact (Hquiet Hfine).
Defined.

(** The test of the code is not the test
    [alpha*dt*(1/dx^2 + 1/dy^2) > 1/2] on the numbers the parameters hold.
    Binary64 holds [alpha = 1], [dt = 0.5], [dx = 1] and [dy = 2^30]
    exactly, and for them the product is [1/2 + 2^-61]; the code computes
    [rx + ry = 0.5] and does not warn. *)
Lemma solveHeatEquation_stability_warning_counterexample :
  (F64.value (alpha sharp_params_float) * F64.value (dt sharp_params_float)
   * (1 / (F64.value (dx sharp_params_float) * F64.value (dx sharp_params_float))
      + 1 / (F64.value (dy sharp_params_float) * F64.value (dy sharp_params_float)))
   > 1 / 2)%R /\
  (rx sharp_params_float + ry sharp_params_float)%num = 0.5%float /\
  gtb (rx sharp_params_float + ry sharp_params_float)%num lit_half = false /\
  exists newU s',
    solveHeatEquation sharp_params_float sample_grid sample_store
      = Some (newU, s') /\
    console s' = [].
Proof.
  split; [|split; [vm_compute; reflexivity|split; [vm_compute; reflexivity|]]].
  - cbn [alpha dt dx dy sharp_params_float].
    rewrite (value_finite 1 false 4503599627370496 (-52)) by (vm_compute; reflexivity).
    rewrite (value_finite 0.5 false 4503599627370496 (-53)) by (vm_compute; reflexivity).
    rewrite (value_finite 1073741824 false 4503599627370496 (-22))
      by (vm_compute; reflexivity).
    change (0 <=? -52) with false. change (0 <=? -53) with false.
    change (0 <=? -22) with false. cbv iota.
    change (2 ^ (- -52)) with 4503599627370496.
    change (2 ^ (- -53)) with 9007199254740992.
    change (2 ^ (- -22)) with 4194304.
    lra.
  - destruct (solveHeatEquation_warns sharp_params_float sample_store
                sample_grid 3 3 (proj1 sample_shaped))
      as (newU & s' & Hrun & _ & Hquiet & _); [lia|lia|].
    exists newU, s'. split; [exact Hrun|]. apply Hquiet. vm_compute. reflexivity.
Qed.

(** ** The boundary conditions: bottom row, side columns, idempotence *)

Lemma plate_shaped : shaped plate_store plate_grid 3 2.
Proof.
  split; [split; [reflexivity|repeat constructor]|].
  exact (NoDup_seq 0 3).
Defined.


Section BoundaryRows.

Context {num : Type} {JN : JsNumber num} {JT : JsTrig num}.

Implicit Types (s t : store num) (g : grid) (p : HeatEquationParams num).

Local Open Scope num_scope.

(** Decide the tests of [bc_cells] that the index arithmetic settles. *)
Ltac settle_cells :=
  unfold bc_cells, bc_top, bc_right, bc_left, bc_bottom, bottom_value;
  repeat match goal with
    | |- context [decide ?P] =>
        first [ rewrite (decide_True (P := P)) by lia
              | rewrite (decide_False (P := P)) by lia ]
    end.



(** C3, as the code has it.  After [applyBoundaryConditions] on a field of
    [nx] by [ny] cells, [nx, ny >= 2], the bottom row holds
    [sin(PI*(i*dx)/Lx)] in the columns [1 <= i <= nx-2].  The two bottom
    corners are overwritten by the left and right loops, which start at
    [j = 0]: [u[0][0] = sin(PI*(1*dx)/Lx) - fL*dx] and
    [u[nx-1][0] = u[nx-2][0] + fR*dx]. *)
Theorem applyBoundaryConditions_bottom_row p s g nx ny :
  shaped s g nx ny -> (2 <= nx)%Z -> (2 <= ny)%Z ->
  exists s',
    applyBoundaryConditions p g s = Some (tt, s') /\
    (forall i, (1 <= i <= nx - 2)%Z ->
       peek s' g i 0 = Math_sin (Math_PI * (of_Z i * dx p) / Lx p)) /\
    peek s' g 0 0 = Math_sin (Math_PI * (of_Z 1 * dx p) / Lx p) - fL p * dx p /\
    peek s' g (nx - 1) 0 = peek s' g (nx - 2) 0 + fR p * dx p.
Proof.
  intros Hsh Hnx Hny.
  destruct (applyBoundaryConditions_spec p s g nx ny Hsh Hnx ltac:(lia))
    as (s' & Hrun & _ & _ & Hpeek).
  exists s'. split; [done|]. rewrite !Hpeek. split; [|split].
  - intros i Hi. rewrite Hpeek. settle_cells. done.
  - settle_cells. done.
  - settle_cells. done.
Qed.


End BoundaryRows.

(** *** Exact arithmetic on the plate and the strip *)

Lemma exact_div_fin (x y : R) :
  y <> 0%R -> Exact.div (Fin x) (Fin y) = Fin (x / y).
Proof. intros Hy. unfold Exact.div. by destruct (Req_dec_T y 0). Qed.

Ltac exact_arith :=
  cbn [Math_sin Math_cos Math_PI of_Z add sub mul div lit_half lit_quarter
       lit_three_quarters rnum_number rnum_trig Exact.lift1 Exact.lift2];
  rewrite ?exact_div_fin by lra;
  cbn [Exact.lift1 Exact.lift2].

Lemma applyBoundaryConditions_bottom_row_witness :
  exists s',
    applyBoundaryConditions plate_params plate_grid plate_store = Some (tt, s') /\
    peek s' plate_grid 1 0 =
    Math_sin (Math_PI * (of_Z 1 * dx plate_params) / Lx plate_params)%num.
Proof.
  destruct (applyBoundaryConditions_bottom_row plate_params plate_store
              plate_grid 3 2 plate_shaped) as (s' & Hrun & Hmid & _);
    [lia|lia|].
  exists s'. split; [exact Hrun|]. apply Hmid. lia.
Defined.

(** On the plate, the bottom-left corner holds [sin(PI/2) - 0 = 1] after
    the boundary conditions, while [sin(PI*(0*dx)/Lx) = 0]. *)
Lemma applyBoundaryConditions_bottom_row_counterexample :
  exists s',
    applyBoundaryConditions plate_params plate_grid plate_store = Some (tt, s') /\
    peek s' plate_grid 0 0 = Fin 1 /\
    Math_sin (Math_PI * (of_Z 0 * dx plate_params) / Lx plate_params)%num = Fin 0 /\
    peek s' plate_grid 0 0 <>
    Math_sin (Math_PI * (of_Z 0 * dx plate_params) / Lx plate_params)%num.
Proof.
  destruct (applyBoundaryConditions_spec plate_params plate_store plate_grid
              3 2 plate_shaped) as (s' & Hrun & _ & _ & Hpeek); [lia|lia|].
  exists s'. split; [exact Hrun|].
  assert (Hcorner : peek s' plate_grid 0 0 = Fin 1).
  { rewrite Hpeek. unfold bc_cells, bc_top, bc_right, bc_left, bc_bottom.
    rewrite (decide_False (P := (0 = 2 - 1 /\ 0 <= 0 < 3))) by lia.
    rewrite (decide_False (P := (0 = 3 - 1 /\ 0 <= 0 < 2))) by lia.
    rewrite (decide_True (P := (0 = 0 /\ 0 <= 0 < 2))) by lia.
    rewrite (decide_True (P := (0 = 0 /\ 0 <= 1 < 3))) by lia.
    unfold bottom_value, plate_params. cbn [dx Lx fL]. exact_arith.
    f_equal. replace (PI * (1 * 1) / 2)%R with (PI / 2)%R by lra.
    rewrite sin_PI2. lra. }
  assert (Hclaim : Math_sin (Math_PI * (of_Z 0 * dx plate_params)
                              / Lx plate_params)%num = Fin 0).
  { unfold plate_params. cbn [dx Lx]. exact_arith.
    f_equal. replace (PI * (0 * 1) / 2)%R with 0%R by lra. apply sin_0. }
  split; [exact Hcorner|]. split; [exact Hclaim|].
  rewrite Hcorner, Hclaim. intros H. injection H. lra.
Qed.



(** *** The side columns *)

Section SideColumns.

Context {num : Type} {JN : JsNumber num} {JT : JsTrig num}.

Local Open Scope num_scope.

(** Below the top row the relation between a side column and its
    neighbour holds in every arithmetic. *)
Lemma bc_cells_side_columns_below (p : HeatEquationParams num) (nx ny : Z)
    (v : Z -> Z -> num) (j : Z) :
  (3 <= nx)%Z -> (2 <= ny)%Z -> (0 <= j <= ny - 2)%Z ->
  bc_cells p nx ny v 0 j = bc_cells p nx ny v 1 j - fL p * dx p /\
  bc_cells p nx ny v (nx - 1) j = bc_cells p nx ny v (nx - 2) j + fR p * dx p.
Proof.
  intros Hnx Hny Hj. unfold bc_cells, bc_top.
  rewrite !(decide_False (P := (j = ny - 1 /\ _)%Z)) by lia.
  unfold bc_right, bc_left.
  rewrite (decide_False (P := (0 = nx - 1 /\ _)%Z)) by lia.
  rewrite (decide_False (P := (1 = nx - 1 /\ _)%Z)) by lia.
  rewrite (decide_True (P := (0 = 0 /\ _)%Z)) by lia.
  rewrite (decide_False (P := (1 = 0 /\ _)%Z)) by lia.
  rewrite (decide_True (P := (nx - 1 = nx - 1 /\ _)%Z)) by lia.
  rewrite (decide_False (P := (nx - 2 = nx - 1 /\ _)%Z)) by lia.
  by rewrite (decide_False (P := (nx - 2 = 0 /\ _)%Z)) by lia.
Qed.

(** Every cell of the top row holds the cell below it plus [fT*dy]. *)
Lemma bc_cells_top_row (p : HeatEquationParams num) (nx ny : Z)
    (v : Z -> Z -> num) (i : Z) :
  (2 <= ny)%Z -> (0 <= i < nx)%Z ->
  bc_cells p nx ny v i (ny - 1) = bc_cells p nx ny v i (ny - 2) + fT p * dy p.
Proof.
  intros Hny Hi. unfold bc_cells, bc_top.
  rewrite (decide_True (P := (ny - 1 = ny - 1 /\ _)%Z)) by lia.
  by rewrite (decide_False (P := (ny - 2 = ny - 1 /\ _)%Z)) by lia.
Qed.

End SideColumns.

(** C7.  After [applyBoundaryConditions] on a field of [nx] by [ny] cells
    with [nx >= 3] and [ny >= 2], in every arithmetic:
    - for the rows [0 <= j <= ny-2], [u[0][j] = u[1][j] - fL*dx] and
      [u[nx-1][j] = u[nx-2][j] + fR*dx];
    - in the top row the top loop writes last, from the row below:
      [u[0][ny-1] = (u[1][ny-2] - fL*dx) + fT*dy] beside
      [u[1][ny-1] = u[1][ny-2] + fT*dy], and
      [u[nx-1][ny-1] = (u[nx-2][ny-2] + fR*dx) + fT*dy] beside
      [u[nx-2][ny-1] = u[nx-2][ny-2] + fT*dy].
    The corner differs from its neighbour by the flux term only where
    adding [fT*dy] commutes with it. *)
Theorem applyBoundaryConditions_side_columns
    {num : Type} {JN : JsNumber num} {JT : JsTrig num}
    (p : HeatEquationParams num) (s : store num) (g : grid) (nx ny : Z) :
  shaped s g nx ny -> 3 <= nx -> 2 <= ny ->
  exists s',
    applyBoundaryConditions p g s = Some (tt, s') /\
    (forall j, 0 <= j <= ny - 2 ->
       peek s' g 0 j = (peek s' g 1 j - fL p * dx p)%num /\
       peek s' g (nx - 1) j = (peek s' g (nx - 2) j + fR p * dx p)%num) /\
    peek s' g 0 (ny - 1)
    = (peek s' g 1 (ny - 2) - fL p * dx p + fT p * dy p)%num /\
    peek s' g 1 (ny - 1) = (peek s' g 1 (ny - 2) + fT p * dy p)%num /\
    peek s' g (nx - 1) (ny - 1)
    = (peek s' g (nx - 2) (ny - 2) + fR p * dx p + fT p * dy p)%num /\
    peek s' g (nx - 2) (ny - 1) = (peek s' g (nx - 2) (ny - 2) + fT p * dy p)%num.
Proof.
  intros Hsh Hnx Hny.
  destruct (applyBoundaryConditions_spec p s g nx ny Hsh ltac:(lia) ltac:(lia))
    as (s' & Hrun & _ & _ & Hpeek).
  exists s'. split; [done|]. rewrite !Hpeek.
  destruct (bc_cells_side_columns_below p nx ny (peek s g) (ny - 2))
    as [Hleft Hright]; [lia|lia|lia|].
  split; [|split; [|split; [|split]]].
  - intros j Hj. rewrite !Hpeek. apply bc_cells_side_columns_below; lia.
  - rewrite <- Hleft. apply bc_cells_top_row; lia.
  - apply bc_cells_top_row; lia.
  - rewrite <- Hright. apply bc_cells_top_row; lia.
  - apply bc_cells_top_row; lia.
Qed.

Lemma corner_shaped : shaped corner_store sample_grid 3 3.
Proof.
  split; [split; [reflexivity|repeat constructor]|].
  exact (NoDup_seq 0 3).
Defined.

Lemma applyBoundaryConditions_side_columns_witness :
  any_engine (fun JT =>
    exists s',
      applyBoundaryConditions flux_params_float sample_grid corner_store
        = Some (tt, s') /\
      peek s' sample_grid 0 1
      = (peek s' sample_grid 1 1
         - fL flux_params_float * dx flux_params_float)%num).
Proof.
  intros JT.
  destruct (applyBoundaryConditions_side_columns flux_params_float corner_store
              sample_grid 3 3 corner_shaped ltac:(lia) ltac:(lia))
    as (s' & Hrun & Hcols & _).
  exists s'. split; [exact Hrun|]. apply (Hcols 1). lia.
Defined.

(** In binary64 the top corner is not its neighbour minus the flux term.
    With [fL = fT = 1], [dx = dy = 0.05] and 2 in the middle of a 3 by 3
    field, [u[0][2] = (2 - 0.05) + 0.05 = 2] while
    [u[1][2] - fL*dx = (2 + 0.05) - 0.05 = 1.9999999999999998], whatever
    the sine of the bottom row is. *)
Lemma applyBoundaryConditions_side_columns_counterexample :
  any_engine (fun JT =>
    exists s',
      applyBoundaryConditions flux_params_float sample_grid corner_store
        = Some (tt, s') /\
      peek s' sample_grid 0 2 = 2%float /\
      (peek s' sample_grid 1 2
       - fL flux_params_float * dx flux_params_float)%num
      = 1.9999999999999998%float /\
      peek s' sample_grid 0 2
      <> (peek s' sample_grid 1 2
          - fL flux_params_float * dx flux_params_float)%num).
Proof.
  intros JT.
  destruct (applyBoundaryConditions_spec flux_params_float corner_store
              sample_grid 3 3 corner_shaped ltac:(lia) ltac:(lia))
    as (s' & Hrun & _ & _ & Hpeek).
  exists s'. split; [exact Hrun|]. rewrite !Hpeek.
  assert (Hcorner : bc_cells flux_params_float 3 3 (peek corner_store sample_grid) 0 2
                    = 2%float) by (vm_compute; reflexivity).
  assert (Hnext : (bc_cells flux_params_float 3 3 (peek corner_store sample_grid) 1 2
                   - fL flux_params_float * dx flux_params_float)%num
                  = 1.9999999999999998%float) by (vm_compute; reflexivity).
  split; [done|]. split; [done|]. rewrite Hcorner, Hnext. intros H.
  apply (f_equal (fun x => PrimFloat.eqb x 2)) in H. vm_compute in H.
  discriminate.
Qed.

(** ** The initial field *)

Lemma exact_Int_part_IZR (z : Z) : Int_part (IZR z) = z.
Proof. symmetry. apply Int_part_spec. lra. Qed.

Lemma exact_Int_part_const (x : R) (z : Z) : x = IZR z -> Int_part x = z.
Proof. intros ->. apply exact_Int_part_IZR. Qed.

Lemma exact_Int_part_nonneg (x : R) : (0 <= x)%R -> 0 <= Int_part x.
Proof.
  intros Hx. destruct (base_Int_part x) as [_ Hlo].
  assert (H : (IZR (-1) < IZR (Int_part x))%R) by lra.
  apply lt_IZR in H. lia.
Qed.

Lemma exact_to_length_IZR (z : Z) :
  0 <= z <= max_length -> Exact.to_length (Fin (IZR z)) = Some z.
Proof.
  intros Hz. unfold Exact.to_length. rewrite exact_Int_part_IZR.
  destruct (Req_dec_T (IZR z) (IZR z)) as [_|Hne]; [|done].
  destruct (Z.leb_spec 0 z); [|lia].
  destruct (Z.leb_spec z max_length); [done|lia].
Qed.

(** The length [Math.floor(L / d) + 1] in exact arithmetic. *)
Lemma exact_grid_length (L d : R) :
  (0 < d)%R -> (0 < L)%R -> Int_part (L / d) + 1 <= max_length ->
  to_length (Math_floor (Fin L / Fin d) + of_Z 1)%num
  = Some (Int_part (L / d) + 1).
Proof.
  intros Hd HL Hcap. exact_arith.
  cbn [Math_floor to_length rnum_number Exact.lift1].
  unfold Exact.floor. cbn [Exact.lift2].
  rewrite <- plus_IZR. apply exact_to_length_IZR.
  assert (0 <= Int_part (L / d)); [|lia].
  apply exact_Int_part_nonneg. apply Rlt_le. by apply Rdiv_lt_0_compat.
Qed.

Section InitialThrows.

Context {num : Type} {JN : JsNumber num} {JT : JsTrig num}.

Implicit Types (s : store num) (p : HeatEquationParams num).

(** [Array(nx)] throws when [nx] is not an array length. *)
Lemma initializeGrid_bad_columns p s :
  to_length (grid_nx p) = None -> initializeGrid p s = None.
Proof.
  intros Hnx. unfold initializeGrid. fold (grid_nx p). by rewrite Hnx.
Qed.


End InitialThrows.




(** ** The colour map *)

(** In binary64, [(m - m) / (m - m)] is NaN for every [m]: [m - m] is a
    zero when [m] is finite and NaN otherwise. *)
Lemma float_self_quotient_nan (m : float) :
  ((m - m) / (m - m))%float = nan.
Proof.
  apply Prim2SF_inj. rewrite div_spec, !sub_spec.
  change (Prim2SF nan) with S754_nan.
  destruct (Prim2SF m) as [sg|sg| |sg mant e].
  - by destruct sg.
  - by destruct sg.
  - done.
  - unfold SF64sub, SFsub.
    set (x := cond_Zopp sg _). replace (x - x) with 0 by lia. done.
Qed.

Lemma temperatureToColor_flat_float (m : float) :
  temperatureToColor m m m = rgb nan nan nan.
Proof.
  unfold temperatureToColor. cbn [sub div float_number].
  rewrite float_self_quotient_nan. vm_compute. reflexivity.
Qed.

Lemma temperatureToColor_flat_exact (m : R) :
  temperatureToColor (Fin m) (Fin m) (Fin m) = rgb RNaN RNaN RNaN.
Proof.
  unfold temperatureToColor.
  cbn [sub div rnum_number Exact.lift2 Exact.div].
  destruct (Req_dec_T (m - m) 0) as [_|Hne]; [|exfalso; apply Hne; lra].
  reflexivity.
Qed.

(** C5, as the code has it.  [temperatureToColor] has no branch for
    [maxTemp == minTemp]: it divides by [maxTemp - minTemp] as for any
    other range.  With [temp == minTemp == maxTemp], which is what the
    renderer passes when the whole field is constant, the quotient is
    [0/0 = NaN], NaN passes the clamp and fails the three comparisons, and
    the three channels are NaN: the string is [rgb(NaN, NaN, NaN)].  This
    holds in binary64 and in exact arithmetic.  In binary64 a [temp] above
    the degenerate range gives [rgb(255, 0, 0)] and one below gives
    [rgb(0, 0, 255)], the clamped infinities. *)
Theorem temperatureToColor_degenerate_range :
  (forall m : float, temperatureToColor m m m = rgb nan nan nan) /\
  (forall m : R,
     temperatureToColor (Fin m) (Fin m) (Fin m) = rgb RNaN RNaN RNaN) /\
  temperatureToColor 2%float 1%float 1%float = rgb 255%float 0%float 0%float /\
  temperatureToColor 0%float 1%float 1%float = rgb 0%float 0%float 255%float.
Proof.
  split; [exact temperatureToColor_flat_float|].
  split; [exact temperatureToColor_flat_exact|].
  split; vm_compute; reflexivity.
Qed.

(** With [temp = minTemp = maxTemp = 1] in binary64 the result is
    [rgb(NaN, NaN, NaN)], not [rgb(0, 0, 255)]. *)
Lemma temperatureToColor_degenerate_range_counterexample :
  temperatureToColor 1%float 1%float 1%float = rgb nan nan nan /\
  temperatureToColor 1%float 1%float 1%float
  <> rgb 0%float 0%float 255%float.
Proof.
  split; [vm_compute; reflexivity|].
  intros H.
  apply (f_equal (fun c => match c with rgb r _ _ => PrimFloat.is_nan r end)) in H.
  vm_compute in H. discriminate.
Qed.

(** *** The clamp in binary64 *)

Lemma float_is_nan_SF (x : float) :
  is_nan x = match Prim2SF x with S754_nan => true | _ => false end.
Proof.
  unfold is_nan. rewrite FloatAxioms.eqb_spec. unfold SFeqb.
  destruct (Prim2SF x) as [[]|[]| |[] m e]; simpl; try done;
    by rewrite Z.compare_refl, Pos.compare_cont_refl.
Qed.








(** ** Running the animation *)

Section Run.

Context {num : Type} {JN : JsNumber num} {JT : JsTrig num}.

Implicit Types (s t : store num) (p : HeatEquationParams num).
Implicit Types (st : SimulationState num).

Local Open Scope num_scope.

Lemma initializeSimulation_spec p s nx ny :
  to_length (grid_nx p) = Some nx -> to_length (grid_ny p) = Some ny ->
  (2 <= nx)%Z -> (2 <= ny)%Z ->
  exists st s',
    initializeSimulation p s = Some (st, s') /\
    rect s' (u st) nx ny /\
    time st = of_Z 0 /\
    isRunning st = false.
Proof.
  intros Hnx Hny Hnx2 Hny2.
  destruct (initializeGrid_spec p s nx ny Hnx Hny)
    as (g & s1 & Hinit & Hsh1 & _); [lia|lia|].
  destruct (applyBoundaryConditions_spec p s1 g nx ny Hsh1 Hnx2 ltac:(lia))
    as (s2 & Hbc & Hsh2 & _).
  destruct (renderHeatMap_quiet s2 g nx ny (proj1 Hsh2) ltac:(lia) s2)
    as ([] & s3 & Hrender & Hq); [done|].
  eexists _, s3. split; [|split; [|split]].
  - unfold initializeSimulation.
    rewrite (bind_Some _ _ _ _ _ Hinit), (bind_Some _ _ _ _ _ Hbc).
    by rewrite (bind_Some _ _ _ _ _ Hrender).
  - cbn [u]. eapply rect_rows; [|apply Hsh2]. symmetry. apply Hq.
  - done.
  - done.
Qed.

Lemma ticks_app p (n m : nat) (c : num * bool) :
  ticks p (n + m) c = ticks p m (ticks p n c).
Proof. revert c. induction n as [|n IH]; intros c; [done|]. simpl. apply IH. Qed.

(** The frames of a run, read off the clock. *)
Lemma frames_run p (n : nat) st s nx ny (c : num * bool) :
  rect s (u st) nx ny -> (2 <= nx)%Z -> (2 <= ny)%Z ->
  ticks p n (time st, isRunning st) = c ->
  exists st' s',
    frames p n st s = Some (st', s') /\
    rect s' (u st') nx ny /\
    time st' = fst c /\ isRunning st' = snd c.
Proof.
  intros Hr Hnx Hny <-.
  destruct (frames_clock p n st s nx ny Hr Hnx Hny) as (st' & s' & Hrun & Hr' & Hc).
  exists st', s'. rewrite <- Hc. by repeat first [done|split].
Qed.

(** The step on which the new time reaches [totalTime] stops the run, and
    no later frame changes the state or the store; a step on which it does
    not adds [dt] to the time and keeps running. *)
Lemma animate_last_step p st s nx ny :
  isRunning st = true -> rect s (u st) nx ny -> (2 <= nx)%Z -> (2 <= ny)%Z ->
  exists st' s',
    animate p st s = Some (st', s') /\
    (geb (time st + dt p) (totalTime p) = true ->
       time st' = of_Z 0 /\ isRunning st' = false /\
       forall n, frames p n st' s' = Some (st', s')) /\
    (geb (time st + dt p) (totalTime p) = false ->
       time st' = time st + dt p /\ isRunning st' = true).
Proof.
  intros Hrun Hr Hnx Hny.
  destruct (animate_running p st s nx ny Hrun Hr Hnx Hny)
    as (newU & s1 & s2 & s3 & _ & _ & _ & _ & _ & _ & Hstep).
  eexists _, s3. split; [exact Hstep|].
  unfold tick. cbn [negb fst snd time isRunning].
  split; intros Hge; rewrite Hge; cbn [fst snd]; [|done].
  split; [done|]. split; [done|]. intros n. by apply frames_stopped.
Qed.

End Run.

(** *** The clock in exact arithmetic *)

Lemma ticks_exact_running (p : HeatEquationParams rnum) (d T : R) (n k : nat) :
  dt p = Fin d -> totalTime p = Fin T -> (0 <= d)%R ->
  (INR (k + n) * d < T)%R ->
  ticks p n (Fin (INR k * d), true) = (Fin (INR (k + n) * d), true).
Proof.
  intros Hd HT Hd0. revert k. induction n as [|n IH]; intros k Hlt.
  - by rewrite Nat.add_0_r.
  - cbn [ticks]. unfold tick at 1. cbn [negb fst snd]. rewrite Hd, HT.
    cbn [geb add rnum_number Exact.lift2 Exact.le].
    assert (Hk : (INR k * d + d = INR (S k) * d)%R) by (rewrite S_INR; lra).
    assert (Hmono : (INR (S k) * d <= INR (k + S n) * d)%R).
    { apply Rmult_le_compat_r; [done|]. apply le_INR. lia. }
    destruct (Rle_dec T (INR k * d + d)) as [Hle|_]; [lra|].
    rewrite Hk. replace (k + S n)%nat with (S k + n)%nat by lia.
    apply IH. by replace (S k + n)%nat with (k + S n)%nat by lia.
Qed.

(** A run from time 0 whose [m]-th time is below [totalTime] and whose
    [m+1]-st reaches it is still running after [m] frames and stops, with
    the time back at 0, on frame [m+1]. *)
Lemma ticks_exact_stop (p : HeatEquationParams rnum) (d T : R) (m : nat) :
  dt p = Fin d -> totalTime p = Fin T -> (0 <= d)%R ->
  (INR m * d < T <= INR (S m) * d)%R ->
  ticks p m (Fin 0, true) = (Fin (INR m * d), true) /\
  ticks p (S m) (Fin 0, true) = (Fin 0, false).
Proof.
  intros Hd HT Hd0 [Hlt Hle].
  assert (Hm : ticks p m (Fin 0, true) = (Fin (INR m * d), true)).
  { replace (Fin 0) with (Fin (INR 0 * d)) by (simpl; f_equal; lra).
    by apply (ticks_exact_running p d T m 0). }
  split; [done|].
  replace (S m) with (m + 1)%nat by lia. rewrite ticks_app, Hm.
  cbn [ticks]. unfold tick. cbn [negb fst snd]. rewrite Hd, HT.
  cbn [geb add of_Z rnum_number Exact.lift2 Exact.le].
  rewrite S_INR in Hle.
  destruct (Rle_dec T (INR m * d + d)) as [_|Hn]; [done|lra].
Qed.

(** ** The run with the default parameters *)

Lemma simulation_run {num : Type} {JN : JsNumber num} {JT : JsTrig num}
    (p : HeatEquationParams num) (s0 : store num) (nx ny : Z) (m : nat) :
  to_length (grid_nx p) = Some nx -> to_length (grid_ny p) = Some ny ->
  2 <= nx -> 2 <= ny ->
  snd (ticks p m (of_Z 0, true)) = true ->
  ticks p (S m) (of_Z 0, true) = (of_Z 0, false) ->
  exists st s1,
    initializeSimulation p s0 = Some (st, s1) /\
    time st = of_Z 0 /\
    isRunning st = false /\
    (exists st' s',
       frames p m (startSimulation st) s1 = Some (st', s') /\
       isRunning st' = true) /\
    (exists st' s',
       frames p (S m) (startSimulation st) s1 = Some (st', s') /\
       time st' = of_Z 0 /\
       isRunning st' = false /\
       forall n, frames p n st' s' = Some (st', s')).
Proof.
  intros Hnx Hny Hnx2 Hny2 Hbefore Hstop.
  destruct (initializeSimulation_spec p s0 nx ny Hnx Hny Hnx2 Hny2)
    as (st & s1 & Hinit & Hr & Htime & Hoff).
  exists st, s1. split; [done|]. split; [done|]. split; [done|].
  assert (Hstart : (time (startSimulation st), isRunning (startSimulation st))
                   = (of_Z 0, true)) by (cbn; by rewrite Htime).
  split.
  - destruct (frames_run p m (startSimulation st) s1 nx ny _ Hr Hnx2 Hny2 eq_refl)
      as (st' & s' & Hrun & _ & _ & Hon).
    exists st', s'. split; [done|]. by rewrite Hon, Hstart.
  - destruct (frames_run p (S m) (startSimulation st) s1 nx ny _ Hr Hnx2 Hny2 eq_refl)
      as (st' & s' & Hrun & _ & Ht & Hon).
    rewrite Hstart, Hstop in Ht, Hon. cbn [fst snd] in Ht, Hon.
    exists st', s'. split; [done|]. split; [done|]. split; [done|].
    intros n. by apply frames_stopped.
Qed.

(** C8.  With the default parameters, from the state that
    [initializeSimulation] sets and [startSimulation] starts (time 0,
    running), the simulation is still running after 4999 frames and after
    5000 frames its time is 0 and [isRunning] is false, both in binary64
    (the rounded sum of 5000 steps of 0.001 is above 5) and in exact
    arithmetic; further frames change neither the state nor the store.  In
    general a frame of a running simulation whose new time reaches
    [totalTime] sets the time to 0 and [isRunning] to false, after which no
    frame changes anything, and a frame whose new time does not reach it
    adds [dt] to the time. *)
Theorem animate_default_run :
  (forall (JT : JsTrig float) (s0 : store float),
     exists st s1,
       initializeSimulation default_params_float s0 = Some (st, s1) /\
       time st = 0%float /\
       isRunning st = false /\
       (exists st' s',
          frames default_params_float 4999 (startSimulation st) s1
            = Some (st', s') /\
          isRunning st' = true) /\
       (exists st' s',
          frames default_params_float 5000 (startSimulation st) s1
            = Some (st', s') /\
          time st' = 0%float /\
          isRunning st' = false /\
          forall n, frames default_params_float n st' s' = Some (st', s'))) /\
  (forall s0 : store rnum,
     exists st s1,
       initializeSimulation default_params_exact s0 = Some (st, s1) /\
       time st = Fin 0 /\
       isRunning st = false /\
       (exists st' s',
          frames default_params_exact 4999 (startSimulation st) s1
            = Some (st', s') /\
          isRunning st' = true) /\
       (exists st' s',
          frames default_params_exact 5000 (startSimulation st) s1
            = Some (st', s') /\
          time st' = Fin 0 /\
          isRunning st' = false /\
          forall n, frames default_params_exact n st' s' = Some (st', s'))) /\
  (forall (num : Type) (JN : JsNumber num) (JT : JsTrig num)
          (p : HeatEquationParams num) (st : SimulationState num)
          (s : store num) (nx ny : Z),
     isRunning st = true -> rect s (u st) nx ny -> 2 <= nx -> 2 <= ny ->
     exists st' s',
       animate p st s = Some (st', s') /\
       (geb (time st + dt p)%num (totalTime p) = true ->
          time st' = of_Z 0 /\ isRunning st' = false /\
          forall n, frames p n st' s' = Some (st', s')) /\
       (geb (time st + dt p)%num (totalTime p) = false ->
          time st' = (time st + dt p)%num /\ isRunning st' = true)).
Proof.
  split; [|split].
  - intros JT s0.
    assert (Hzero : of_Z 0 = 0%float) by (vm_compute; reflexivity).
    rewrite <- Hzero.
    apply (simulation_run default_params_float s0 41 31 4999);
      [vm_compute; reflexivity|vm_compute; reflexivity|lia|lia
      |vm_compute; reflexivity|vm_compute; reflexivity].
  - intros s0.
    assert (Hx : Int_part (2 / (1 / 20)) = 40)
      by (apply exact_Int_part_const; lra).
    assert (Hy : Int_part (3 / 2 / (1 / 20)) = 30)
      by (apply exact_Int_part_const; lra).
    destruct (ticks_exact_stop default_params_exact (1 / 1000) 5 4999)
      as [Hbefore Hstop]; [done|done|lra| |].
    { rewrite !INR_IZR_INZ.
      change (Z.of_nat 4999) with 4999. change (Z.of_nat 5000) with 5000. lra. }
    change (Fin 0) with (@of_Z rnum rnum_number 0) in *.
    apply (simulation_run default_params_exact s0 41 31 4999); [| |lia|lia| |done].
    + unfold grid_nx. cbn [Lx dx default_params_exact].
      rewrite exact_grid_length
        by first [lra|rewrite Hx; unfold max_length; lia].
      by rewrite Hx.
    + unfold grid_ny. cbn [Ly dy default_params_exact].
      rewrite exact_grid_length
        by first [lra|rewrite Hy; unfold max_length; lia].
      by rewrite Hy.
    + by rewrite Hbefore.
  - intros num JN JT. apply animate_last_step.
Qed.

Lemma plate_last_step :
  geb (time plate_last_state + dt plate_params)%num (totalTime plate_params) = true.
Proof.
  cbn [time dt totalTime plate_last_state plate_params geb add rnum_number
       Exact.lift2 Exact.le].
  destruct (Rle_dec 5 (5 + 1 / 1000)) as [_|Hn]; [reflexivity|].
  exfalso. apply Hn. lra.
Defined.

Lemma animate_default_run_witness :
  exists st' s',
    animate plate_params plate_last_state plate_store = Some (st', s') /\
    time st' = Fin 0 /\ isRunning st' = false.
Proof.
  destruct animate_default_run as (_ & _ & Hstep).
  destruct (Hstep rnum rnum_number rnum_trig plate_params plate_last_state
              plate_store 3 2 eq_refl (proj1 plate_shaped))
    as (st' & s' & Hrun & Hstop & _); [lia|lia|].
  exists st', s'. split; [exact Hrun|].
  destruct (Hstop plate_last_step) as (Ht & Hoff & _).
  split; [exact Ht|exact Hoff].
Defined.

(** ** The field on the last step *)

(** C9.  On the step whose new time reaches [totalTime] the stored field
    is the result of [solveHeatEquation] on the previous field with
    [applyBoundaryConditions] applied to it: the state gets that grid, time
    0 and [isRunning = false], and keeps its [animationId].  Its interior
    cells are the stencil update of the previous field; nothing calls
    [initializeGrid]. *)
Theorem animate_final_step_keeps_field
    {num : Type} {JN : JsNumber num} {JT : JsTrig num}
    (p : HeatEquationParams num) (st : SimulationState num) (s : store num)
    (nx ny : Z) :
  isRunning st = true -> rect s (u st) nx ny -> 2 <= nx -> 2 <= ny ->
  geb (time st + dt p)%num (totalTime p) = true ->
  exists newU s1 s',
    solveHeatEquation p (u st) s = Some (newU, s1) /\
    applyBoundaryConditions p newU s1 = Some (tt, s') /\
    animate p st s =
    Some ({| u := newU;
             time := of_Z 0;
             isRunning := false;
             animationId := animationId st |}, s') /\
    (forall i j, peek s' newU i j =
       bc_cells p nx ny (solve_cells p nx ny (peek s (u st))) i j) /\
    (forall i j, 1 <= i <= nx - 2 -> 1 <= j <= ny - 2 ->
       peek s' newU i j = stencil_at p (peek s (u st)) i j).
Proof.
  intros Hrun Hr Hnx Hny Hge.
  destruct (animate_running p st s nx ny Hrun Hr Hnx Hny)
    as (newU & s1 & s2 & s3 & Hsolve & Hbc & _ & Hcells & _ & Hsame & Hstep).
  rewrite (Hsame Hge) in Hstep. unfold tick in Hstep.
  cbn [negb fst snd] in Hstep. rewrite Hge in Hstep. cbn [fst snd] in Hstep.
  exists newU, s1, s2. split; [done|]. split; [done|]. split; [done|].
  split; [done|].
  intros i j Hi Hj. rewrite Hcells.
  unfold bc_cells, bc_top, bc_right, bc_left, bc_bottom.
  rewrite !decide_False by lia.
  unfold solve_cells. by rewrite decide_True by lia.
Qed.

Lemma animate_final_step_keeps_field_witness :
  exists newU s1 s',
    solveHeatEquation plate_params plate_grid plate_store = Some (newU, s1) /\
    applyBoundaryConditions plate_params newU s1 = Some (tt, s') /\
    animate plate_params plate_last_state plate_store =
    Some ({| u := newU;
             time := Fin 0;
             isRunning := false;
             animationId := None |}, s').
Proof.
  destruct (animate_final_step_keeps_field plate_params plate_last_state
              plate_store 3 2 eq_refl (proj1 plate_shaped))
    as (newU & s1 & s' & Hsolve & Hbc & Hstep & _); [lia|lia| |].
  - exact plate_last_step.
  - exists newU, s1, s'. split; [exact Hsolve|]. split; [exact Hbc|exact Hstep].
Defined.

(** * Further properties of the component *)

(** ** What the boundary conditions leave alone, and where they throw *)

Section BoundaryEdges.

Context {num : Type} {JN : JsNumber num} {JT : JsTrig num}.

Implicit Types (s t : store num) (g : grid) (p : HeatEquationParams num).

Local Open Scope num_scope.

(** X1.  [applyBoundaryConditions] works in place and only on the edge of
    the field it is given: on [nx] by [ny] cells, [nx, ny >= 2], it
    returns, the interior cells keep their values, every cell of the top
    row ends as the cell below it plus [fT*dy], and the console, the canvas
    and every array that is not a row of the field are as before. *)
Theorem applyBoundaryConditions_frame p s g nx ny :
  shaped s g nx ny -> (2 <= nx)%Z -> (2 <= ny)%Z ->
  exists s',
    applyBoundaryConditions p g s = Some (tt, s') /\
    shaped s' g nx ny /\
    (forall i j, (1 <= i <= nx - 2)%Z -> (1 <= j <= ny - 2)%Z ->
       peek s' g i j = peek s g i j) /\
    (forall i, (0 <= i < nx)%Z ->
       peek s' g i (ny - 1) = peek s' g i (ny - 2) + fT p * dy p) /\
    console s' = console s /\
    screen s' = screen s /\
    length (rows s') = length (rows s) /\
    (forall a, a ∉ g -> rows s' !! a = rows s !! a).
Proof.
  intros Hsh Hnx Hny.
  destruct (applyBoundaryConditions_spec p s g nx ny Hsh Hnx ltac:(lia))
    as (s' & Hrun & Hsh' & (Hcon & Hscr & Hlen & Hout) & Hpeek).
  exists s'. split; [done|]. split; [done|].
  split; [|split; [|by repeat split]].
  - intros i j Hi Hj. rewrite Hpeek.
    unfold bc_cells, bc_top, bc_right, bc_left, bc_bottom.
    by rewrite !decide_False by lia.
  - intros i Hi. rewrite !Hpeek. by apply bc_cells_top_row.
Qed.

(** A loop that starts by reading a column that is not there throws on
    its first turn. *)
Lemma missing_column_throws g (i ny : Z) (body : num -> Z -> M unit) s :
  zlookup g i = None -> (1 <= ny)%Z ->
  for_range 0 ny (fun j => v <- load g i j ;; body v j) s = None.
Proof.
  intros Hi Hny. unfold for_range, for_fold.
  destruct (Z.to_nat (ny - 0)) as [|k] eqn:Hk; [lia|].
  cbn [for_loop]. unfold bind at 1. unfold bind at 1. unfold load at 1.
  unfold bind at 1. unfold grid_row. by rewrite Hi.
Qed.

(** X2.  A field with a single column has no neighbour column: after the
    bottom loop, the first assignment of the left loop reads [u[1][0]] with
    [u[1]] undefined, and [applyBoundaryConditions] throws. *)
Theorem applyBoundaryConditions_single_column p s g ny :
  shaped s g 1 ny -> (1 <= ny)%Z ->
  applyBoundaryConditions p g s = None.
Proof.
  intros Hsh Hny.
  destruct (row_fill_loop g s 1 ny 0 (bottom_value p))
    as (s1 & Hrun1 & Hsh1 & _); [done|lia|lia|].
  unfold applyBoundaryConditions.
  rewrite (bind_Some _ _ _ _ _ (row_length_spec s g 1 ny 0 (proj1 Hsh) ltac:(lia))).
  replace (Z.of_nat (length g)) with 1%Z by (symmetry; apply Hsh).
  unfold bottom_value in Hrun1. rewrite (bind_Some _ _ _ _ _ Hrun1).
  unfold bind at 1. rewrite missing_column_throws; [done| |done].
  apply zlookup_None. destruct Hsh as [[Hlen _] _]. lia.
Qed.

End BoundaryEdges.

Lemma applyBoundaryConditions_frame_witness :
  exists s',
    applyBoundaryConditions plate_params plate_grid plate_store = Some (tt, s') /\
    peek s' plate_grid 1 1 = (peek s' plate_grid 1 0 + fT plate_params * dy plate_params)%num /\
    console s' = [].
Proof.
  destruct (applyBoundaryConditions_frame plate_params plate_store plate_grid
              3 2 plate_shaped) as (s' & Hrun & _ & _ & Htop & Hcon & _);
    [lia|lia|].
  exists s'. split; [exact Hrun|]. split; [|exact Hcon]. apply (Htop 1). lia.
Defined.

(** A single column of three cells, with the parameters of the plate. *)
Lemma column_shaped :
  shaped {| rows := [[Fin 0; Fin 0; Fin 0]]; console := []; screen := None |}
         [0%nat] 1 3.
Proof.
  split; [split; [reflexivity|repeat constructor]|].
  exact (NoDup_seq 0 1).
Defined.

Lemma applyBoundaryConditions_single_column_witness :
  applyBoundaryConditions plate_params [0%nat]
    {| rows := [[Fin 0; Fin 0; Fin 0]]; console := []; screen := None |} = None.
Proof.
  apply (applyBoundaryConditions_single_column plate_params _ _ 3 column_shaped).
  lia.
Defined.

(** ** The empty grid and the single row *)

Section DegenerateGrids.

Context {num : Type} {JN : JsNumber num} {JT : JsTrig num}.

Implicit Types (s t : store num) (g : grid) (p : HeatEquationParams num).

Local Open Scope num_scope.

(** On a single row the top loop reads [u[i][-1]], which is undefined, so
    every cell becomes [NaN + fT*dy]. *)
Lemma single_row_cells p s g nx :
  shaped s g nx 1 -> (2 <= nx)%Z ->
  exists s',
    applyBoundaryConditions p g s = Some (tt, s') /\
    shaped s' g nx 1 /\
    forall i, (0 <= i < nx)%Z -> peek s' g i 0 = NaN + fT p * dy p.
Proof.
  intros Hsh Hnx.
  destruct (applyBoundaryConditions_spec p s g nx 1 Hsh Hnx ltac:(lia))
    as (s' & Hrun & Hsh' & _ & Hpeek).
  exists s'. split; [done|]. split; [done|]. intros i Hi. rewrite Hpeek.
  unfold bc_cells, bc_top. rewrite decide_True by lia.
  unfold bc_right, bc_left, bc_bottom. rewrite !decide_False by lia.
  rewrite (peek_outside s g nx 1); [done|apply Hsh|lia].
Qed.

End DegenerateGrids.

(** X3.  The component starts with [u: []].  On the empty grid
    [solveHeatEquation] and [applyBoundaryConditions] throw at
    [u[0].length], so a frame of a running simulation with no field throws;
    [renderHeatMap] throws too if there is a canvas, and returns at once,
    whatever the grid, if there is none. *)
Theorem empty_grid_throws :
  forall (num : Type) (JN : JsNumber num) (JT : JsTrig num)
         (p : HeatEquationParams num) (s : store num),
    solveHeatEquation p [] s = None /\
    applyBoundaryConditions p [] s = None /\
    (forall st, isRunning st = true -> u st = [] -> animate p st s = None) /\
    (forall c, screen s = Some c -> renderHeatMap [] s = None) /\
    (forall g, screen s = None -> renderHeatMap g s = Some (tt, s)).
Proof.
  intros num JN JT p s. split; [done|]. split; [done|].
  split; [|split].
  - intros st Hrun Hu. unfold animate. by rewrite Hrun, Hu.
  - intros c Hc. unfold renderHeatMap, current_canvas, bind. by rewrite Hc.
  - intros g Hnone. unfold renderHeatMap, current_canvas, bind. by rewrite Hnone.
Qed.

Lemma empty_grid_throws_witness :
  animate plate_params
    {| u := []; time := Fin 0; isRunning := true; animationId := None |}
    plate_store = None /\
  renderHeatMap plate_grid plate_store = Some (tt, plate_store).
Proof.
  destruct (empty_grid_throws rnum rnum_number rnum_trig plate_params plate_store)
    as (_ & _ & Hframe & _ & Hblind).
  split; [by apply Hframe|by apply Hblind].
Defined.

Lemma float_nan_add (x : float) : (nan + x)%float = nan.
Proof.
  apply Prim2SF_inj. rewrite add_spec.
  change (Prim2SF nan) with S754_nan. by destruct (Prim2SF x).
Qed.

(** X4.  A field with a single row ([ny = 1], which [initializeGrid]
    builds when [Ly < dy]) does not survive the boundary conditions: the
    top loop assigns [u[i][0] = u[i][-1] + fT*dy] to every cell, and
    [u[i][-1]] is undefined, so the whole field is NaN, in exact arithmetic
    and in binary64. *)
Theorem applyBoundaryConditions_single_row :
  (forall (p : HeatEquationParams rnum) (s : store rnum) (g : grid) (nx : Z),
     shaped s g nx 1 -> 2 <= nx ->
     exists s',
       applyBoundaryConditions p g s = Some (tt, s') /\
       forall i, 0 <= i < nx -> peek s' g i 0 = RNaN) /\
  (forall (JT : JsTrig float) (p : HeatEquationParams float)
          (s : store float) (g : grid) (nx : Z),
     shaped s g nx 1 -> 2 <= nx ->
     exists s',
       applyBoundaryConditions p g s = Some (tt, s') /\
       forall i, 0 <= i < nx -> peek s' g i 0 = nan).
Proof.
  split.
  - intros p s g nx Hsh Hnx.
    destruct (single_row_cells p s g nx Hsh Hnx) as (s' & Hrun & _ & Hcells).
    exists s'. split; [done|]. intros i Hi. by rewrite Hcells.
  - intros JT p s g nx Hsh Hnx.
    destruct (single_row_cells p s g nx Hsh Hnx) as (s' & Hrun & _ & Hcells).
    exists s'. split; [done|]. intros i Hi. rewrite Hcells by done.
    apply float_nan_add.
Qed.

(** Two columns of one cell. *)
Lemma row_shaped :
  shaped {| rows := [[Fin 1]; [Fin 2]]; console := []; screen := None |}
         [0%nat; 1%nat] 2 1.
Proof.
  split; [split; [reflexivity|repeat constructor]|].
  exact (NoDup_seq 0 2).
Defined.

Lemma applyBoundaryConditions_single_row_witness :
  exists s',
    applyBoundaryConditions plate_params [0%nat; 1%nat]
      {| rows := [[Fin 1]; [Fin 2]]; console := []; screen := None |}
      = Some (tt, s') /\
    peek s' [0%nat; 1%nat] 1 0 = RNaN.
Proof.
  destruct applyBoundaryConditions_single_row as [Hexact _].
  destruct (Hexact plate_params _ _ 2 row_shaped) as (s' & Hrun & Hnan); [lia|].
  exists s'. split; [exact Hrun|]. apply Hnan. lia.
Defined.

(** ** What a frame allocates and what it leaves alone *)

Section FrameEffects.

Context {num : Type} {JN : JsNumber num} {JT : JsTrig num}.

Implicit Types (s t : store num) (g : grid) (p : HeatEquationParams num).
Implicit Types (st : SimulationState num).

(** The field that [solveHeatEquation] returns is made of the next
    [length g] addresses of the store. *)
Lemma solveHeatEquation_fresh p s g nx ny :
  rect s g nx ny -> 2 <= nx -> 2 <= ny ->
  exists s',
    solveHeatEquation p g s = Some (seq (length (rows s)) (length g), s') /\
    length (rows s') = (length (rows s) + length g)%nat.
Proof.
  intros Hr Hnx Hny.
  destruct (copy_rows_spec s g nx ny Hr) as (Hsh1 & Hr1 & Hdisj & _).
  set (newU := seq (length (rows s)) (length g)) in *.
  set (s1 := {| rows := rows s ++ snapshot s g;
                console := console s; screen := screen s |}) in *.
  set (s2 := {| rows := rows s1;
                console := console s1 ++ stability_warning p;
                screen := screen s1 |}).
  assert (Hrows : rows s1 = rows s2) by done.
  destruct (stencil_loops p g newU s2 nx ny) as (t' & Hrun & _ & Hout & _);
    [by eapply rect_rows|split; [by eapply rect_rows; [|apply Hsh1]|apply Hsh1]
    |done|done|done|].
  exists t'. split.
  - unfold solveHeatEquation.
    rewrite (bind_Some _ _ _ _ _ (row_length_spec s g nx ny 0 Hr ltac:(lia))).
    rewrite (bind_Some _ _ _ _ _ (copy_rows_run g s (rect_allocated _ _ _ _ Hr))).
    fold newU s1.
    assert (Hwarn : (if gtb (rx p + ry p)%num lit_half
                     then console_warn stability_message else ret tt) s1 =
                    Some (tt, s2)).
    { unfold s2, stability_warning. destruct (gtb _ _); unfold console_warn, ret.
      - done.
      - rewrite app_nil_r. by destruct s1. }
    rewrite (bind_Some _ _ _ _ _ Hwarn).
    replace (Z.of_nat (length g)) with nx by (symmetry; apply Hr).
    by rewrite (bind_Some _ _ _ _ _ Hrun).
  - destruct Hout as (_ & _ & -> & _). simpl.
    rewrite length_app. unfold snapshot. by rewrite length_fmap.
Qed.

(** One frame of a running simulation, with all its effects on the
    store. *)
Lemma animate_effects p st s nx ny :
  isRunning st = true -> rect s (u st) nx ny -> 2 <= nx -> 2 <= ny ->
  exists st' s',
    animate p st s = Some (st', s') /\
    u st' = seq (length (rows s)) (length (u st)) /\
    shaped s' (u st') nx ny /\
    (forall i j, peek s' (u st') i j =
                 bc_cells p nx ny (solve_cells p nx ny (peek s (u st))) i j) /\
    (forall a r, rows s !! a = Some r -> rows s' !! a = Some r) /\
    length (rows s') = (length (rows s) + length (u st))%nat /\
    console s' = console s ++ stability_warning p /\
    (time st', isRunning st') = tick p (time st, true) /\
    animationId st' = animationId st.
Proof.
  intros Hon Hr Hnx Hny.
  destruct (animate_running p st s nx ny Hon Hr Hnx Hny)
    as (newU & s1 & s2 & s3 & Hsolve & Hbc & Hsh2 & Hcells & Hq & _ & Hstep).
  destruct (solveHeatEquation_fresh p s (u st) nx ny Hr Hnx Hny)
    as (s1' & Hfresh & Hlen1).
  assert (newU = seq (length (rows s)) (length (u st)) /\ s1' = s1) as [HnewU ->].
  { rewrite Hsolve in Hfresh. by simplify_eq. }
  destruct (solveHeatEquation_spec p s (u st) nx ny Hr Hnx Hny)
    as (newU' & s1' & Hspec & Hsh1 & _ & _ & Hkeep & Hcon & _).
  assert (newU' = newU /\ s1' = s1) as [-> ->].
  { rewrite Hsolve in Hspec. by simplify_eq. }
  destruct (applyBoundaryConditions_spec p s1 newU nx ny Hsh1 Hnx ltac:(lia))
    as (s2' & Hbc' & _ & Hout & _).
  assert (s2' = s2) as ->.
  { rewrite Hbc in Hbc'. by simplify_eq. }
  destruct Hq as [Hrows Hconsole]. destruct Hout as (Hc2 & _ & Hl2 & Hout).
  eexists _, s3. split; [exact Hstep|]. cbn [u time isRunning animationId].
  split; [done|]. split; [|split; [|split; [|split; [|split; [|split]]]]].
  - split; [|apply Hsh2]. eapply rect_rows; [|apply Hsh2]. done.
  - intros i j. rewrite (peek_rows s3 s2) by done. apply Hcells.
  - intros a r Ha. rewrite Hrows, Hout; [by apply Hkeep|].
    rewrite HnewU, elem_of_seq. apply lookup_lt_Some in Ha. lia.
  - by rewrite Hrows, Hl2.
  - by rewrite Hconsole, Hc2.
  - by rewrite <- surjective_pairing.
  - done.
Qed.

(** [n] frames: the rows they allocate, the lines they log, and what they
    keep. *)
Lemma frames_effects p (n : nat) st s nx ny :
  rect s (u st) nx ny -> 2 <= nx -> 2 <= ny ->
  exists st' s',
    frames p n st s = Some (st', s') /\
    rect s' (u st') nx ny /\
    (forall a r, rows s !! a = Some r -> rows s' !! a = Some r) /\
    length (rows s') =
      (length (rows s)
       + live_frames p n (time st, isRunning st) * Z.to_nat nx)%nat /\
    console s' =
      console s ++ concat (replicate (live_frames p n (time st, isRunning st))
                                     (stability_warning p)) /\
    animationId st' = animationId st.
Proof.
  intros Hr Hnx Hny. revert st s Hr.
  induction n as [|n IH]; intros st s Hr.
  - exists st, s. simpl. rewrite app_nil_r. repeat first [done|split|lia].
  - simpl frames. cbn [live_frames snd].
    destruct (isRunning st) eqn:Hon.
    + destruct (animate_effects p st s nx ny Hon Hr Hnx Hny)
        as (st1 & s1 & Hstep & _ & Hsh1 & _ & Hkeep1 & Hlen1 & Hcon1 & Hclock & Hid).
      rewrite (bind_Some _ _ _ _ _ Hstep).
      destruct (IH st1 s1 (proj1 Hsh1))
        as (st' & s' & Hrest & Hr' & Hkeep & Hlen & Hcon & Hid').
      exists st', s'. rewrite <- Hclock.
      split; [done|]. split; [done|]. split; [|split; [|split]].
      * intros a r Ha. by apply Hkeep, Hkeep1.
      * rewrite Hlen, Hlen1. destruct Hr as [Hg _]. lia.
      * rewrite Hcon, Hcon1. simpl. by rewrite app_assoc.
      * by rewrite Hid'.
    + rewrite (bind_Some _ _ _ _ _ (animate_stopped p st s Hon)).
      rewrite (frames_stopped p n st s Hon).
      exists st, s. simpl. rewrite app_nil_r. repeat first [done|split|lia].
Qed.

End FrameEffects.

(** X8.  A frame of a running simulation works on a copy: every array of
    the store before the frame is still there with the same content, so the
    previous field reads as before; the new field is made of [nx] fresh
    rows, and [animationId] is not touched. *)
Theorem animate_keeps_previous_field
    {num : Type} {JN : JsNumber num} {JT : JsTrig num}
    (p : HeatEquationParams num) (st : SimulationState num) (s : store num)
    (nx ny : Z) :
  isRunning st = true -> rect s (u st) nx ny -> 2 <= nx -> 2 <= ny ->
  exists st' s',
    animate p st s = Some (st', s') /\
    (forall a r, rows s !! a = Some r -> rows s' !! a = Some r) /\
    (forall i j, peek s' (u st) i j = peek s (u st) i j) /\
    (forall a, a ∈ u st' -> (length (rows s) <= a)%nat) /\
    length (rows s') = (length (rows s) + Z.to_nat nx)%nat /\
    animationId st' = animationId st.
Proof.
  intros Hon Hr Hnx Hny.
  destruct (animate_effects p st s nx ny Hon Hr Hnx Hny)
    as (st' & s' & Hstep & Hu & _ & _ & Hkeep & Hlen & _ & _ & Hid).
  exists st', s'. split; [done|]. split; [done|].
  split; [|split; [|split; [|done]]].
  - intros i j. unfold peek. destruct (zlookup (u st) i) as [a|] eqn:Ha; [|done].
    apply zlookup_elem_of in Ha. destruct Hr as [_ Hall].
    rewrite Forall_forall in Hall. specialize (Hall a Ha).
    destruct (rows s !! a) as [r|] eqn:Hrow; [|done].
    by rewrite (Hkeep a r Hrow).
  - intros a Ha. rewrite Hu in Ha. apply elem_of_seq in Ha. lia.
  - rewrite Hlen. destruct Hr as [Hg _]. lia.
Qed.

Lemma animate_keeps_previous_field_witness :
  exists st' s',
    animate plate_params
            {| u := plate_grid; time := Fin 0; isRunning := true;
               animationId := None |} plate_store = Some (st', s') /\
    snapshot s' plate_grid = snapshot plate_store plate_grid.
Proof.
  destruct (animate_keeps_previous_field plate_params
              {| u := plate_grid; time := Fin 0; isRunning := true;
                 animationId := None |} plate_store 3 2 eq_refl
              (proj1 plate_shaped) ltac:(lia) ltac:(lia))
    as (st' & s' & Hrun & Hkeep & _).
  exists st', s'. split; [exact Hrun|].
  unfold snapshot. apply list_fmap_ext. intros k a Ha.
  destruct (rows plate_store !! a) as [r|] eqn:Hrow.
  - by rewrite (Hkeep a r Hrow).
  - exfalso. pose proof (proj1 plate_shaped) as [_ Hall].
    rewrite Forall_lookup in Hall. specialize (Hall k a Ha).
    rewrite Hrow in Hall. discriminate.
Defined.

Lemma live_frames_le {num : Type} {JN : JsNumber num}
    (p : HeatEquationParams num) (n : nat) (c : num * bool) :
  (live_frames p n c <= n)%nat.
Proof.
  revert c. induction n as [|n IH]; intros c; [done|].
  simpl. destruct (snd c); [|lia]. specialize (IH (tick p c)). lia.
Qed.

(** X9.  [n] frames never throw on a rectangular field of at least 2 by 2
    cells.  With [k] the number of those frames that find the simulation
    running, they log the stability warning once per such frame and
    nothing else, allocate [k * nx] rows, leave every array that existed
    before as it was, and keep [animationId]. *)
Theorem frames_log_and_allocation
    {num : Type} {JN : JsNumber num} {JT : JsTrig num}
    (p : HeatEquationParams num) (n : nat) (st : SimulationState num)
    (s : store num) (nx ny : Z) :
  rect s (u st) nx ny -> 2 <= nx -> 2 <= ny ->
  exists st' s' (k : nat),
    frames p n st s = Some (st', s') /\
    k = live_frames p n (time st, isRunning st) /\
    (k <= n)%nat /\
    console s' = console s ++ concat (replicate k (stability_warning p)) /\
    length (rows s') = (length (rows s) + k * Z.to_nat nx)%nat /\
    (forall a r, rows s !! a = Some r -> rows s' !! a = Some r) /\
    animationId st' = animationId st.
Proof.
  intros Hr Hnx Hny.
  destruct (frames_effects p n st s nx ny Hr Hnx Hny)
    as (st' & s' & Hrun & _ & Hkeep & Hlen & Hcon & Hid).
  exists st', s', (live_frames p n (time st, isRunning st)).
  split; [done|]. split; [done|]. split; [apply live_frames_le|].
  by repeat first [done|split].
Qed.

Lemma frames_log_and_allocation_witness :
  exists st' s' (k : nat),
    frames plate_params 2
           {| u := plate_grid; time := Fin 0; isRunning := true;
              animationId := None |} plate_store = Some (st', s') /\
    (k <= 2)%nat /\
    length (rows s') = (length (rows plate_store) + k * Z.to_nat 3)%nat.
Proof.
  destruct (frames_log_and_allocation plate_params 2
              {| u := plate_grid; time := Fin 0; isRunning := true;
                 animationId := None |} plate_store 3 2
              (proj1 plate_shaped) ltac:(lia) ltac:(lia))
    as (st' & s' & k & Hrun & _ & Hk & _ & Hlen & _).
  exists st', s', k. split; [exact Hrun|]. split; [exact Hk|exact Hlen].
Defined.

(** ** Pausing and resuming *)

(** X11.  Pausing a running simulation, letting any number of frames
    pass and resuming loses nothing: the frames that follow run as if the
    simulation had never been paused.  While paused, frames change neither
    the state nor the store. *)
Theorem pause_resume_round_trip
    {num : Type} {JN : JsNumber num} {JT : JsTrig num}
    (p : HeatEquationParams num) (n m : nat) (st : SimulationState num)
    (s : store num) :
  isRunning st = true ->
  frames p n (pauseSimulation st) s = Some (pauseSimulation st, s) /\
  (st1 <- frames p n (pauseSimulation st) ;; frames p m (startSimulation st1)) s
  = frames p m st s.
Proof.
  intros Hon.
  assert (Hpaused : frames p n (pauseSimulation st) s = Some (pauseSimulation st, s))
    by (by apply frames_stopped).
  split; [done|].
  rewrite (bind_Some _ _ _ _ _ Hpaused).
  destruct st as [g t r a]. simpl in Hon. subst r. done.
Qed.

Lemma pause_resume_round_trip_witness :
  (st1 <- frames plate_params 4
            (pauseSimulation {| u := plate_grid; time := Fin 0;
                                isRunning := true; animationId := None |}) ;;
   frames plate_params 2 (startSimulation st1)) plate_store
  = frames plate_params 2
      {| u := plate_grid; time := Fin 0; isRunning := true;
         animationId := None |} plate_store.
Proof.
  exact (proj2 (pause_resume_round_trip plate_params 4 2
                  {| u := plate_grid; time := Fin 0; isRunning := true;
                     animationId := None |} plate_store eq_refl)).
Defined.

(** ** What the renderer paints *)

Section RenderDraws.

Context {num : Type} {JN : JsNumber num}.

Implicit Types (s t : store num) (g : grid) (ds : list (@draw num)).

Lemma paint_app s ds ds' : paint (paint s ds) ds' = paint s (ds ++ ds').
Proof.
  unfold paint. simpl. destruct (screen s) as [c|]; [|done].
  simpl. by rewrite app_assoc.
Qed.

Lemma emit_paint s (d : @draw num) : emit d s = Some (tt, paint s [d]).
Proof. done. Qed.

Lemma zrange_shift (i : Z) (n : nat) :
  (fun k => i + Z.of_nat k) <$> seq 0 (S n)
  = i :: ((fun k => i + 1 + Z.of_nat k) <$> seq 0 n).
Proof.
  simpl. f_equal; [lia|]. rewrite <- fmap_S_seq, <- list_fmap_compose.
  apply list_fmap_ext. intros k x _. simpl. lia.
Qed.

Lemma zrange_elem (lo hi k : Z) : k ∈ zrange lo hi <-> lo <= k < hi.
Proof.
  unfold zrange. rewrite list_elem_of_fmap. split.
  - intros (x & -> & Hx). apply elem_of_seq in Hx. lia.
  - intros Hk. exists (Z.to_nat (k - lo)). split; [lia|].
    apply elem_of_seq. lia.
Qed.

Lemma zrange_length (lo hi : Z) : length (zrange lo hi) = Z.to_nat (hi - lo).
Proof. unfold zrange. by rewrite length_fmap, length_seq. Qed.

(** A loop whose body leaves the store alone is a fold. *)
Lemma for_loop_pure {A} (f : Z -> A -> A) (body : Z -> A -> M A)
    (n : nat) (i : Z) (acc : A) s :
  (forall k a, i <= k < i + Z.of_nat n -> body k a s = Some (f k a, s)) ->
  for_loop n i body acc s =
  Some (fold_left (fun a k => f k a) ((fun k => i + Z.of_nat k) <$> seq 0 n) acc, s).
Proof.
  revert i acc. induction n as [|n IH]; intros i acc Hbody; [done|].
  rewrite zrange_shift. cbn [for_loop fold_left]. unfold bind.
  rewrite Hbody by lia. apply IH. intros k a Hk. apply Hbody. lia.
Qed.

Lemma for_fold_pure {A} (f : Z -> A -> A) (body : Z -> A -> M A)
    (lo hi : Z) (acc : A) s :
  (forall k a, lo <= k < hi -> body k a s = Some (f k a, s)) ->
  for_fold lo hi body acc s =
  Some (fold_left (fun a k => f k a) (zrange lo hi) acc, s).
Proof.
  intros Hbody. unfold for_fold, zrange. apply for_loop_pure.
  intros k a Hk. apply Hbody. lia.
Qed.

(** A loop whose body only paints, paints the concatenation. *)
Lemma for_loop_paint (body : Z -> M unit) (out : Z -> list (@draw num))
    (n : nat) (i : Z) s ds :
  (forall k d, i <= k < i + Z.of_nat n ->
     body k (paint s d) = Some (tt, paint s (d ++ out k))) ->
  for_loop n i (fun k _ => body k) tt (paint s ds) =
  Some (tt, paint s (ds ++ concat (out <$> ((fun k => i + Z.of_nat k) <$> seq 0 n)))).
Proof.
  revert i ds. induction n as [|n IH]; intros i ds Hbody.
  - simpl. by rewrite app_nil_r.
  - rewrite zrange_shift. cbn [for_loop fmap list_fmap concat]. unfold bind.
    rewrite Hbody by lia. rewrite IH.
    + by rewrite app_assoc.
    + intros k d Hk. apply Hbody. lia.
Qed.

Lemma for_range_paint (body : Z -> M unit) (out : Z -> list (@draw num))
    (lo hi : Z) s ds :
  (forall k d, lo <= k < hi ->
     body k (paint s d) = Some (tt, paint s (d ++ out k))) ->
  for_range lo hi body (paint s ds) =
  Some (tt, paint s (ds ++ concat (out <$> zrange lo hi))).
Proof.
  intros Hbody. unfold for_range, for_fold, zrange. apply for_loop_paint.
  intros k d Hk. apply Hbody. lia.
Qed.

End RenderDraws.

Section RenderFrame.

Context {num : Type} {JN : JsNumber num}.

Implicit Types (s t : store num) (g : grid).

Local Open Scope num_scope.

(** The two nested loops that look for [minTemp] and [maxTemp]. *)
Lemma scan_loops s g nx ny (acc : num * num) :
  rect s g nx ny ->
  for_fold 0 nx (fun i acc =>
    for_fold 0 ny (fun j acc =>
      a <- load g i j ;;
      b <- load g i j ;;
      ret (Math_min (fst acc) a, Math_max (snd acc) b)) acc) acc s
  = Some (fold_left (fun acc i => scan_column (peek s g) ny i acc)
                    (zrange 0 nx) acc, s).
Proof.
  intros Hr.
  apply (for_fold_pure (fun i acc => scan_column (peek s g) ny i acc)).
  intros i a Hi. unfold scan_column.
  apply (for_fold_pure
           (fun j acc => (Math_min (fst acc) (peek s g i j),
                          Math_max (snd acc) (peek s g i j)))).
  intros j b Hj.
  rewrite (bind_Some _ _ _ _ _ (load_spec s g nx ny i j Hr Hi)).
  by rewrite (bind_Some _ _ _ _ _ (load_spec s g nx ny i j Hr Hi)).
Qed.

(** The two nested loops that fill the cells. *)
Lemma fill_loops s g nx ny (w h lo hi : num) ds :
  rect s g nx ny ->
  for_range 0 nx (fun i =>
    for_range 0 ny (fun j =>
      v <- load g i j ;;
      emit (FillRect (temperatureToColor v lo hi)
              (of_Z i * (w / of_Z nx))
              (of_Z (ny - 1 - j) * (h / of_Z ny))
              (w / of_Z nx) (h / of_Z ny)))) (paint s ds)
  = Some (tt, paint s (ds ++ concat ((fun i =>
      concat ((fun j =>
        [FillRect (temperatureToColor (peek s g i j) lo hi)
                  (of_Z i * (w / of_Z nx))
                  (of_Z (ny - 1 - j) * (h / of_Z ny))
                  (w / of_Z nx) (h / of_Z ny)]) <$> zrange 0 ny))
      <$> zrange 0 nx))).
Proof.
  intros Hr.
  apply (for_range_paint _ (fun i => concat ((fun j =>
        [FillRect (temperatureToColor (peek s g i j) lo hi)
                  (of_Z i * (w / of_Z nx))
                  (of_Z (ny - 1 - j) * (h / of_Z ny))
                  (w / of_Z nx) (h / of_Z ny)]) <$> zrange 0 ny))).
  intros i d Hi.
  apply (for_range_paint _ (fun j =>
        [FillRect (temperatureToColor (peek s g i j) lo hi)
                  (of_Z i * (w / of_Z nx))
                  (of_Z (ny - 1 - j) * (h / of_Z ny))
                  (w / of_Z nx) (h / of_Z ny)])).
  intros j d' Hj.
  assert (Hr' : rect (paint s d') g nx ny) by (by eapply rect_rows; [|exact Hr]).
  rewrite (bind_Some _ _ _ _ _ (load_spec _ g nx ny i j Hr' Hi)).
  rewrite emit_paint, paint_app. by rewrite (peek_rows (paint s d') s).
Qed.

Lemma length_concat_const {A B} (f : A -> list B) (l : list A) (n : nat) :
  (forall x, length (f x) = n) ->
  length (concat (f <$> l)) = (length l * n)%nat.
Proof.
  intros Hf. induction l as [|x l IH]; [done|].
  rewrite fmap_cons. cbn [concat]. rewrite length_app, IH, Hf. simpl. lia.
Qed.

(** A loop of single calls on the 2D context. *)
Lemma stroke_loop s (out : Z -> @draw num) (lo hi : Z) ds :
  for_range lo hi (fun k => emit (out k)) (paint s ds)
  = Some (tt, paint s (ds ++ (out <$> zrange lo hi))).
Proof.
  rewrite (for_range_paint _ (fun k => [out k])).
  - do 4 f_equal. induction (zrange lo hi) as [|k l IH]; [done|].
    rewrite !fmap_cons. cbn [concat app]. by rewrite IH.
  - intros k d _. by rewrite emit_paint, paint_app.
Qed.

(** X12.  On a canvas [c] and a rectangular field of at least one cell,
    [renderHeatMap] does not throw, touches neither the arrays nor the
    console, and draws exactly this, in this order: one [clearRect] of the
    whole canvas; for every cell, column by column, one [fillRect] at
    [(i*cellWidth, (ny-1-j)*cellHeight)] with [fillStyle] set to the colour
    of the cell's temperature on the scale found by the scan; [nx + 1]
    vertical and [ny + 1] horizontal stroked lines.  That is
    [1 + nx*ny + (nx+1) + (ny+1)] drawing operations. *)
Theorem renderHeatMap_draws s g nx ny (c : @canvas num) :
  rect s g nx ny -> 1 <= nx -> 1 <= ny -> screen s = Some c ->
  renderHeatMap g s =
  Some (tt, paint s (frame_draws (width c) (height c) (peek s g) nx ny)) /\
  length (frame_draws (width c) (height c) (peek s g) nx ny)
  = Z.to_nat (1 + nx * ny + (nx + 1) + (ny + 1)).
Proof.
  intros Hr Hnx Hny Hc. split.
  - unfold renderHeatMap.
    assert (Hcur : current_canvas s = Some (Some c, s))
      by (unfold current_canvas; by rewrite Hc).
    rewrite (bind_Some _ _ _ _ _ Hcur).
    replace (Z.of_nat (length g)) with nx by (symmetry; apply Hr).
    rewrite (bind_Some _ _ _ _ _ (row_length_spec s g nx ny 0 Hr ltac:(lia))).
    rewrite (bind_Some _ _ _ _ _ (load_spec s g nx ny 0 0 Hr ltac:(lia))).
    rewrite (bind_Some _ _ _ _ _ (load_spec s g nx ny 0 0 Hr ltac:(lia))).
    rewrite (bind_Some _ _ _ _ _ (scan_loops s g nx ny _ Hr)).
    fold (scan_field (peek s g) nx ny).
    rewrite (bind_Some _ _ _ _ _ (emit_paint s _)).
    rewrite (bind_Some _ _ _ _ _ (fill_loops s g nx ny _ _ _ _ _ Hr)).
    rewrite (bind_Some _ _ _ _ _ (stroke_loop s _ 0 (nx + 1) _)).
    rewrite stroke_loop.
    unfold frame_draws, cell_fills, vertical_lines, horizontal_lines.
    by rewrite <- !app_assoc.
  - unfold frame_draws, cell_fills, vertical_lines, horizontal_lines.
    cbn [length]. rewrite !length_app, !length_fmap, !zrange_length.
    rewrite (length_concat_const _ _ (Z.to_nat ny)), zrange_length; [nia|].
    intros i. rewrite (length_concat_const _ _ 1%nat), zrange_length; [lia|done].
Qed.

End RenderFrame.

(** *** The least and the greatest temperature *)

(** Folding finite values into a running minimum and maximum. *)
Lemma scan_list_exact {K : Type} (val : K -> rnum) (real : K -> R)
    (l : list K) (m M : R) :
  (forall k, k ∈ l -> val k = Fin (real k)) ->
  exists m' M',
    fold_left (fun acc k => (Math_min (fst acc) (val k), Math_max (snd acc) (val k)))
              l (Fin m, Fin M) = (Fin m', Fin M') /\
    (m' <= m)%R /\ (M <= M')%R /\
    (forall k, k ∈ l -> (m' <= real k <= M')%R) /\
    (m' = m \/ exists k, k ∈ l /\ m' = real k) /\
    (M' = M \/ exists k, k ∈ l /\ M' = real k).
Proof.
  revert m M. induction l as [|k l IH]; intros m M Hval.
  - exists m, M. split; [done|]. split; [lra|]. split; [lra|].
    split; [|split; by left]. intros k Hk. by apply elem_of_nil in Hk.
  - cbn [fold_left fst snd]. rewrite (Hval k) by apply list_elem_of_here.
    cbn [Math_min Math_max rnum_number Exact.lift2].
    destruct (IH (Rmin m (real k)) (Rmax M (real k)))
      as (m' & M' & Hrun & Hm & HM & Hall & Hmin & Hmax).
    { intros k' Hk'. apply Hval. by apply list_elem_of_further. }
    exists m', M'. split; [done|].
    pose proof (Rmin_l m (real k)). pose proof (Rmin_r m (real k)).
    pose proof (Rmax_l M (real k)). pose proof (Rmax_r M (real k)).
    split; [lra|]. split; [lra|]. split; [|split].
    + intros k' Hk'. apply elem_of_cons in Hk' as [->|Hk']; [lra|by apply Hall].
    + destruct Hmin as [->|(k' & Hk' & ->)].
      * unfold Rmin. destruct (Rle_dec m (real k)); [by left|].
        right. exists k. split; [apply list_elem_of_here|done].
      * right. exists k'. split; [by apply list_elem_of_further|done].
    + destruct Hmax as [->|(k' & Hk' & ->)].
      * unfold Rmax. destruct (Rle_dec M (real k)); [|by left].
        right. exists k. split; [apply list_elem_of_here|done].
      * right. exists k'. split; [by apply list_elem_of_further|done].
Qed.

(** The same over the columns of a field. *)
Lemma scan_columns_exact (v : Z -> Z -> rnum) (f : Z -> Z -> R) (ny : Z)
    (l : list Z) (m M : R) :
  (forall i j, i ∈ l -> 0 <= j < ny -> v i j = Fin (f i j)) ->
  exists m' M',
    fold_left (fun acc i => scan_column v ny i acc) l (Fin m, Fin M)
    = (Fin m', Fin M') /\
    (m' <= m)%R /\ (M <= M')%R /\
    (forall i j, i ∈ l -> 0 <= j < ny -> (m' <= f i j <= M')%R) /\
    (m' = m \/ exists i j, i ∈ l /\ 0 <= j < ny /\ m' = f i j) /\
    (M' = M \/ exists i j, i ∈ l /\ 0 <= j < ny /\ M' = f i j).
Proof.
  revert m M. induction l as [|i l IH]; intros m M Hval.
  - exists m, M. split; [done|]. split; [lra|]. split; [lra|].
    split; [|split; by left]. intros i j Hi. by apply elem_of_nil in Hi.
  - cbn [fold_left]. unfold scan_column at 2.
    destruct (scan_list_exact (v i) (f i) (zrange 0 ny) m M)
      as (m1 & M1 & Hrun1 & Hm1 & HM1 & Hall1 & Hmin1 & Hmax1).
    { intros j Hj. apply Hval; [apply list_elem_of_here|by apply zrange_elem]. }
    rewrite Hrun1.
    destruct (IH m1 M1) as (m' & M' & Hrun & Hm & HM & Hall & Hmin & Hmax).
    { intros i' j Hi' Hj. apply Hval; [by apply list_elem_of_further|done]. }
    exists m', M'. split; [done|]. split; [lra|]. split; [lra|].
    split; [|split].
    + intros i' j Hi' Hj. apply elem_of_cons in Hi' as [->|Hi']; [|by apply Hall].
      specialize (Hall1 j (proj2 (zrange_elem 0 ny j) Hj)). lra.
    + destruct Hmin as [->|(i' & j & Hi' & Hj & ->)].
      * destruct Hmin1 as [->|(j & Hj & ->)]; [by left|].
        right. exists i, j. split; [apply list_elem_of_here|].
        split; [by apply zrange_elem|done].
      * right. exists i', j. split; [by apply list_elem_of_further|done].
    + destruct Hmax as [->|(i' & j & Hi' & Hj & ->)].
      * destruct Hmax1 as [->|(j & Hj & ->)]; [by left|].
        right. exists i, j. split; [apply list_elem_of_here|].
        split; [by apply zrange_elem|done].
      * right. exists i', j. split; [by apply list_elem_of_further|done].
Qed.

(** The order of binary64, read off the comparison of [SpecFloat]. *)
Ltac compare_cases :=
  repeat match goal with
  | H : context [Pos.compare_cont Eq ?a ?b] |- _ =>
      change (Pos.compare_cont Eq a b) with (Pos.compare a b) in H
  | |- context [Pos.compare_cont Eq ?a ?b] =>
      change (Pos.compare_cont Eq a b) with (Pos.compare a b)
  end;
  repeat match goal with
  | H : context [Z.compare ?a ?b] |- _ => destruct (Z.compare_spec a b)
  | |- context [Z.compare ?a ?b] => destruct (Z.compare_spec a b)
  | H : context [Pos.compare ?a ?b] |- _ => destruct (Pos.compare_spec a b)
  | |- context [Pos.compare ?a ?b] => destruct (Pos.compare_spec a b)
  end;
  cbn [CompOpp] in *; try done; try lia.

Lemma SFleb_trans (x y z : spec_float) :
  SFleb x y = true -> SFleb y z = true -> SFleb x z = true.
Proof.
  unfold SFleb.
  destruct x as [[]|[]| |[] mx ex], y as [[]|[]| |[] my ey],
           z as [[]|[]| |[] mz ez]; cbn [SFcompare]; try done;
    intros H1 H2; compare_cases.
Qed.

Lemma SFleb_refl (x : spec_float) : x <> S754_nan -> SFleb x x = true.
Proof.
  unfold SFleb. destruct x as [[]|[]| |[] mx ex]; cbn [SFcompare]; try done;
    intros _; compare_cases.
Qed.

Lemma SFltb_leb (x y : spec_float) : SFltb x y = true -> SFleb x y = true.
Proof. unfold SFltb, SFleb. by destruct (SFcompare x y) as [[]|]. Qed.

Lemma SFltb_false_leb (x y : spec_float) :
  x <> S754_nan -> y <> S754_nan -> SFltb x y = false -> SFleb y x = true.
Proof.
  unfold SFltb, SFleb.
  destruct x as [[]|[]| |[] mx ex], y as [[]|[]| |[] my ey];
    cbn [SFcompare]; try done; intros _ _ H; compare_cases.
Qed.

Lemma float_not_nan_SF (x : float) : is_nan x = false -> Prim2SF x <> S754_nan.
Proof. rewrite float_is_nan_SF. by destruct (Prim2SF x). Qed.

Lemma float_leb_trans (x y z : float) :
  (x <=? y)%float = true -> (y <=? z)%float = true -> (x <=? z)%float = true.
Proof. rewrite !FloatAxioms.leb_spec. apply SFleb_trans. Qed.

Lemma float_leb_refl (x : float) : is_nan x = false -> (x <=? x)%float = true.
Proof.
  intros Hx. rewrite FloatAxioms.leb_spec. by apply SFleb_refl, float_not_nan_SF.
Qed.

Lemma float_ltb_leb (x y : float) :
  (x <? y)%float = true -> (x <=? y)%float = true.
Proof. rewrite FloatAxioms.ltb_spec, FloatAxioms.leb_spec. apply SFltb_leb. Qed.

Lemma float_ltb_false_leb (x y : float) :
  is_nan x = false -> is_nan y = false ->
  (x <? y)%float = false -> (y <=? x)%float = true.
Proof.
  intros Hx Hy. rewrite FloatAxioms.ltb_spec, FloatAxioms.leb_spec.
  by apply SFltb_false_leb; apply float_not_nan_SF.
Qed.

(** [Math.min] and [Math.max] of two numbers: one of the two, below
    (above) both. *)
Lemma float_min_spec (a b : float) :
  is_nan a = false -> is_nan b = false ->
  (F64.min a b = a \/ F64.min a b = b) /\
  (F64.min a b <=? a)%float = true /\ (F64.min a b <=? b)%float = true.
Proof.
  intros Ha Hb. unfold F64.min. rewrite Ha, Hb. cbn [orb].
  destruct (a <? b)%float eqn:Hab.
  { split; [by left|]. split; [by apply float_leb_refl|by apply float_ltb_leb]. }
  destruct (b <? a)%float eqn:Hba.
  { split; [by right|]. split; [by apply float_ltb_leb|by apply float_leb_refl]. }
  pose proof (float_ltb_false_leb a b Ha Hb Hab).
  pose proof (float_ltb_false_leb b a Hb Ha Hba).
  destruct (F64.is_neg_zero a).
  - split; [by left|]. split; [by apply float_leb_refl|done].
  - split; [by right|]. split; [done|by apply float_leb_refl].
Qed.

Lemma float_max_spec (a b : float) :
  is_nan a = false -> is_nan b = false ->
  (F64.max a b = a \/ F64.max a b = b) /\
  (a <=? F64.max a b)%float = true /\ (b <=? F64.max a b)%float = true.
Proof.
  intros Ha Hb. unfold F64.max. rewrite Ha, Hb. cbn [orb].
  destruct (a <? b)%float eqn:Hab.
  { split; [by right|]. split; [by apply float_ltb_leb|by apply float_leb_refl]. }
  destruct (b <? a)%float eqn:Hba.
  { split; [by left|]. split; [by apply float_leb_refl|by apply float_ltb_leb]. }
  pose proof (float_ltb_false_leb a b Ha Hb Hab).
  pose proof (float_ltb_false_leb b a Hb Ha Hba).
  destruct (F64.is_neg_zero a).
  - split; [by right|]. split; [done|by apply float_leb_refl].
  - split; [by left|]. split; [by apply float_leb_refl|done].
Qed.

(** Folding numbers of binary64 into a running minimum and maximum. *)
Lemma scan_list_float {K : Type} (val : K -> float) (l : list K) (m M : float) :
  is_nan m = false -> is_nan M = false ->
  (forall k, k ∈ l -> is_nan (val k) = false) ->
  exists m' M',
    fold_left (fun acc k => (Math_min (fst acc) (val k), Math_max (snd acc) (val k)))
              l (m, M) = (m', M') /\
    is_nan m' = false /\ is_nan M' = false /\
    (m' <=? m)%float = true /\ (M <=? M')%float = true /\
    (forall k, k ∈ l ->
       (m' <=? val k)%float = true /\ (val k <=? M')%float = true) /\
    (m' = m \/ exists k, k ∈ l /\ m' = val k) /\
    (M' = M \/ exists k, k ∈ l /\ M' = val k).
Proof.
  revert m M. induction l as [|k l IH]; intros m M Hm HM Hval.
  - exists m, M. split; [done|]. split; [done|]. split; [done|].
    split; [by apply float_leb_refl|]. split; [by apply float_leb_refl|].
    split; [|split; by left]. intros k Hk. by apply elem_of_nil in Hk.
  - cbn [fold_left fst snd]. cbn [Math_min Math_max float_number].
    assert (Hk : is_nan (val k) = false) by apply Hval, list_elem_of_here.
    destruct (float_min_spec m (val k) Hm Hk) as (Hsel1 & Hlo1 & Hlo2).
    destruct (float_max_spec M (val k) HM Hk) as (Hsel2 & Hhi1 & Hhi2).
    destruct (IH (F64.min m (val k)) (F64.max M (val k)))
      as (m' & M' & Hrun & Hm' & HM' & Hle & Hge & Hall & Hmin & Hmax).
    { by destruct Hsel1 as [-> | ->]. }
    { by destruct Hsel2 as [-> | ->]. }
    { intros k' Hk'. apply Hval. by apply list_elem_of_further. }
    exists m', M'. split; [done|]. split; [done|]. split; [done|].
    split; [by eapply float_leb_trans|]. split; [by eapply float_leb_trans|].
    split; [|split].
    + intros k' Hk'. apply elem_of_cons in Hk' as [->|Hk']; [|by apply Hall].
      split; by eapply float_leb_trans.
    + destruct Hmin as [->|(k' & Hk' & ->)].
      * destruct Hsel1 as [-> | ->]; [by left|].
        right. exists k. split; [apply list_elem_of_here|done].
      * right. exists k'. split; [by apply list_elem_of_further|done].
    + destruct Hmax as [->|(k' & Hk' & ->)].
      * destruct Hsel2 as [-> | ->]; [by left|].
        right. exists k. split; [apply list_elem_of_here|done].
      * right. exists k'. split; [by apply list_elem_of_further|done].
Qed.

Lemma scan_columns_float (v : Z -> Z -> float) (ny : Z) (l : list Z)
    (m M : float) :
  is_nan m = false -> is_nan M = false ->
  (forall i j, i ∈ l -> 0 <= j < ny -> is_nan (v i j) = false) ->
  exists m' M',
    fold_left (fun acc i => scan_column v ny i acc) l (m, M) = (m', M') /\
    is_nan m' = false /\ is_nan M' = false /\
    (m' <=? m)%float = true /\ (M <=? M')%float = true /\
    (forall i j, i ∈ l -> 0 <= j < ny ->
       (m' <=? v i j)%float = true /\ (v i j <=? M')%float = true) /\
    (m' = m \/ exists i j, i ∈ l /\ 0 <= j < ny /\ m' = v i j) /\
    (M' = M \/ exists i j, i ∈ l /\ 0 <= j < ny /\ M' = v i j).
Proof.
  revert m M. induction l as [|i l IH]; intros m M Hm HM Hval.
  - exists m, M. split; [done|]. split; [done|]. split; [done|].
    split; [by apply float_leb_refl|]. split; [by apply float_leb_refl|].
    split; [|split; by left]. intros i j Hi. by apply elem_of_nil in Hi.
  - cbn [fold_left]. unfold scan_column at 2.
    destruct (scan_list_float (v i) (zrange 0 ny) m M Hm HM)
      as (m1 & M1 & Hrun1 & Hm1 & HM1 & Hle1 & Hge1 & Hall1 & Hmin1 & Hmax1).
    { intros j Hj. apply Hval; [apply list_elem_of_here|by apply zrange_elem]. }
    rewrite Hrun1.
    destruct (IH m1 M1 Hm1 HM1)
      as (m' & M' & Hrun & Hm' & HM' & Hle & Hge & Hall & Hmin & Hmax).
    { intros i' j Hi' Hj. apply Hval; [by apply list_elem_of_further|done]. }
    exists m', M'. split; [done|]. split; [done|]. split; [done|].
    split; [by eapply float_leb_trans|]. split; [by eapply float_leb_trans|].
    split; [|split].
    + intros i' j Hi' Hj. apply elem_of_cons in Hi' as [->|Hi']; [|by apply Hall].
      destruct (Hall1 j (proj2 (zrange_elem 0 ny j) Hj)) as [Hlo Hhi].
      split; by eapply float_leb_trans.
    + destruct Hmin as [->|(i' & j & Hi' & Hj & ->)].
      * destruct Hmin1 as [->|(j & Hj & ->)]; [by left|].
        right. exists i, j. split; [apply list_elem_of_here|].
        split; [by apply zrange_elem|done].
      * right. exists i', j. split; [by apply list_elem_of_further|done].
    + destruct Hmax as [->|(i' & j & Hi' & Hj & ->)].
      * destruct Hmax1 as [->|(j & Hj & ->)]; [by left|].
        right. exists i, j. split; [apply list_elem_of_here|].
        split; [by apply zrange_elem|done].
      * right. exists i', j. split; [by apply list_elem_of_further|done].
Qed.

(** X13.  On a field of at least one cell whose values are all numbers,
    the scan of [renderHeatMap] finds the least and the greatest
    temperature: every cell lies between [minTemp] and [maxTemp], and each
    of the two is the value of some cell.  This holds in exact arithmetic
    and in binary64, where the order is that of [<=] (so [-0] and [+0]
    count as equal). *)
Theorem scan_field_extremes :
  (forall (v : Z -> Z -> rnum) (f : Z -> Z -> R) (nx ny : Z),
     1 <= nx -> 1 <= ny ->
     (forall i j, 0 <= i < nx -> 0 <= j < ny -> v i j = Fin (f i j)) ->
     exists m M,
       scan_field v nx ny = (Fin m, Fin M) /\
       (forall i j, 0 <= i < nx -> 0 <= j < ny -> (m <= f i j <= M)%R) /\
       (exists i j, 0 <= i < nx /\ 0 <= j < ny /\ f i j = m) /\
       (exists i j, 0 <= i < nx /\ 0 <= j < ny /\ f i j = M)) /\
  (forall (v : Z -> Z -> float) (nx ny : Z),
     1 <= nx -> 1 <= ny ->
     (forall i j, 0 <= i < nx -> 0 <= j < ny -> is_nan (v i j) = false) ->
     (forall i j, 0 <= i < nx -> 0 <= j < ny ->
        (fst (scan_field v nx ny) <=? v i j)%float = true /\
        (v i j <=? snd (scan_field v nx ny))%float = true) /\
     (exists i j, 0 <= i < nx /\ 0 <= j < ny /\
        fst (scan_field v nx ny) = v i j) /\
     (exists i j, 0 <= i < nx /\ 0 <= j < ny /\
        snd (scan_field v nx ny) = v i j)).
Proof.
  split.
  - intros v f nx ny Hnx Hny Hval. unfold scan_field. rewrite (Hval 0 0) by lia.
    destruct (scan_columns_exact v f ny (zrange 0 nx) (f 0 0) (f 0 0))
      as (m & M & Hrun & _ & _ & Hall & Hmin & Hmax).
    { intros i j Hi Hj. apply Hval; [by apply zrange_elem|done]. }
    exists m, M. split; [done|]. split; [|split].
    + intros i j Hi Hj. apply Hall; [by apply zrange_elem|done].
    + destruct Hmin as [->|(i & j & Hi & Hj & ->)].
      * exists 0, 0. repeat first [done|split|lia].
      * exists i, j. apply zrange_elem in Hi. by repeat first [done|split].
    + destruct Hmax as [->|(i & j & Hi & Hj & ->)].
      * exists 0, 0. repeat first [done|split|lia].
      * exists i, j. apply zrange_elem in Hi. by repeat first [done|split].
  - intros v nx ny Hnx Hny Hval. unfold scan_field.
    assert (H0 : is_nan (v 0 0) = false) by (apply Hval; lia).
    destruct (scan_columns_float v ny (zrange 0 nx) (v 0 0) (v 0 0) H0 H0)
      as (m & M & Hrun & _ & _ & _ & _ & Hall & Hmin & Hmax).
    { intros i j Hi Hj. apply Hval; [by apply zrange_elem|done]. }
    rewrite Hrun. cbn [fst snd]. split; [|split].
    + intros i j Hi Hj. apply Hall; [by apply zrange_elem|done].
    + destruct Hmin as [->|(i & j & Hi & Hj & ->)].
      * exists 0, 0. repeat first [done|split|lia].
      * exists i, j. apply zrange_elem in Hi. by repeat first [done|split].
    + destruct Hmax as [->|(i & j & Hi & Hj & ->)].
      * exists 0, 0. repeat first [done|split|lia].
      * exists i, j. apply zrange_elem in Hi. by repeat first [done|split].
Qed.

Lemma easel_cells i j :
  0 <= i < 2 -> 0 <= j < 2 ->
  peek easel_store easel_grid i j = Fin (easel_values i j).
Proof.
  intros Hi Hj.
  assert (i = 0 \/ i = 1) as [->| ->] by lia;
    (assert (j = 0 \/ j = 1) as [->| ->] by lia); reflexivity.
Defined.

Lemma easel_cells_float_numbers i j :
  0 <= i < 2 -> 0 <= j < 2 -> is_nan (easel_cells_float i j) = false.
Proof.
  intros Hi Hj.
  assert (i = 0 \/ i = 1) as [->| ->] by lia;
    (assert (j = 0 \/ j = 1) as [->| ->] by lia); reflexivity.
Defined.

(** On the field [[0, 1], [2, 4]] the scan ends at or below 0 and at or
    above 4 (seeded with [u[0][0] = 0], it has to move the maximum); on the
    binary64 field [[2, -0], [7, 2]] it ends at or below [-0] and at or
    above 7. *)
Lemma scan_field_extremes_witness :
  (exists m M,
     scan_field (peek easel_store easel_grid) 2 2 = (Fin m, Fin M) /\
     (m <= 0)%R /\ (4 <= M)%R) /\
  (fst (scan_field easel_cells_float 2 2) <=? (-0))%float = true /\
  (7 <=? snd (scan_field easel_cells_float 2 2))%float = true.
Proof.
  destruct scan_field_extremes as [Hexact Hfloat].
  split.
  - destruct (Hexact (peek easel_store easel_grid) easel_values 2 2
                ltac:(lia) ltac:(lia) easel_cells)
      as (m & M & Hrun & Hall & _).
    exists m, M. split; [exact Hrun|].
    pose proof (Hall 0 0 ltac:(lia) ltac:(lia)) as H00.
    pose proof (Hall 1 1 ltac:(lia) ltac:(lia)) as H11.
    change (easel_values 0 0) with 0%R in H00.
    change (easel_values 1 1) with 4%R in H11. split; [apply H00|apply H11].
  - destruct (Hfloat easel_cells_float 2 2 ltac:(lia) ltac:(lia)
                easel_cells_float_numbers) as (Hall & _).
    split.
    + exact (proj1 (Hall 0 1 ltac:(lia) ltac:(lia))).
    + exact (proj2 (Hall 1 0 ltac:(lia) ltac:(lia))).
Defined.

(** *** The colours of a frame *)

Lemma elem_of_concat {A} (x : A) (ls : list (list A)) :
  x ∈ concat ls -> exists l, x ∈ l /\ l ∈ ls.
Proof.
  induction ls as [|l ls IH]; simpl.
  - intros H. by apply elem_of_nil in H.
  - intros H. apply elem_of_app in H as [H|H].
    + exists l. split; [done|apply list_elem_of_here].
    + destruct (IH H) as (l' & Hx & Hl'). exists l'.
      split; [done|by apply list_elem_of_further].
Qed.

(** Every [fillRect] of a frame paints a cell, in the colour of that cell
    on the scale of the scan. *)
Lemma frame_draws_fill {num : Type} {JN : JsNumber num}
    (w h : num) (v : Z -> Z -> num) (nx ny : Z)
    (col : @color num) (x y cw ch : num) :
  FillRect col x y cw ch ∈ frame_draws w h v nx ny ->
  exists i j, 0 <= i < nx /\ 0 <= j < ny /\
    col = temperatureToColor (v i j) (fst (scan_field v nx ny))
                             (snd (scan_field v nx ny)).
Proof.
  unfold frame_draws. intros H.
  apply elem_of_cons in H as [H|H]; [discriminate|].
  apply elem_of_app in H as [H|H]; [|apply elem_of_app in H as [H|H]].
  - unfold cell_fills in H.
    apply elem_of_concat in H as (l & Hd & Hl).
    apply list_elem_of_fmap in Hl as (i & -> & Hi).
    apply elem_of_concat in Hd as (l & Hd & Hl).
    apply list_elem_of_fmap in Hl as (j & -> & Hj).
    apply list_elem_of_singleton in Hd.
    exists i, j. apply zrange_elem in Hi, Hj.
    split; [done|]. split; [done|]. congruence.
  - unfold vertical_lines in H.
    apply list_elem_of_fmap in H as (i & Hd & _). discriminate.
  - unfold horizontal_lines in H.
    apply list_elem_of_fmap in H as (i & Hd & _). discriminate.
Qed.

Lemma easel_first_fill (v : Z -> Z -> rnum) (nx ny : Z) :
  nx = 2 -> ny = 2 ->
  FillRect (temperatureToColor (v 0 0) (fst (scan_field v nx ny))
                               (snd (scan_field v nx ny)))
           (of_Z 0 * (Fin 200 / of_Z nx))%num
           (of_Z (ny - 1 - 0) * (Fin 100 / of_Z ny))%num
           (Fin 200 / of_Z nx)%num (Fin 100 / of_Z ny)%num
    ∈ frame_draws (Fin 200) (Fin 100) v nx ny.
Proof.
  intros Hnx Hny. unfold frame_draws. apply list_elem_of_further.
  apply elem_of_app. left. unfold cell_fills.
  replace (zrange 0 nx) with [0; 1] by (by rewrite Hnx).
  replace (zrange 0 ny) with [0; 1] by (by rewrite Hny).
  apply list_elem_of_here.
Defined.

(** X15.  In exact arithmetic, when every cell of the field holds the
    same number, [maxTemp - minTemp] is zero and the [fillStyle] set for
    every [fillRect] of the frame is [rgb(NaN, NaN, NaN)]. *)
Theorem frame_colours_uniform (w h : rnum) (v : Z -> Z -> rnum) (c : R)
    (nx ny : Z) :
  1 <= nx -> 1 <= ny ->
  (forall i j, 0 <= i < nx -> 0 <= j < ny -> v i j = Fin c) ->
  forall col x y cw ch,
    FillRect col x y cw ch ∈ frame_draws w h v nx ny ->
    col = rgb RNaN RNaN RNaN.
Proof.
  intros Hnx Hny Hval col x y cw ch Hd.
  apply frame_draws_fill in Hd as (i & j & Hi & Hj & ->).
  unfold scan_field. rewrite (Hval 0 0) by lia.
  destruct (scan_columns_exact v (fun _ _ => c) ny (zrange 0 nx) c c)
    as (m & M & Hrun & Hm & HM & Hall & Hmin & Hmax).
  { intros i' j' Hi' Hj'. apply Hval; [by apply zrange_elem|done]. }
  rewrite Hrun, (Hval i j) by done. cbn [fst snd].
  assert (m = c) as -> by (destruct Hmin as [|(_ & _ & _ & _ & ?)]; done).
  assert (M = c) as -> by (destruct Hmax as [|(_ & _ & _ & _ & ?)]; done).
  apply temperatureToColor_flat_exact.
Qed.

Lemma frame_colours_uniform_witness :
  temperatureToColor (peek plate_store plate_grid 0 0)
    (fst (scan_field (peek plate_store plate_grid) 2 2))
    (snd (scan_field (peek plate_store plate_grid) 2 2))
  = rgb RNaN RNaN RNaN.
Proof.
  apply (frame_colours_uniform (Fin 200) (Fin 100)
           (peek plate_store plate_grid) 0 2 2 ltac:(lia) ltac:(lia)) with
    (x := (of_Z 0 * (Fin 200 / of_Z 2))%num)
    (y := (of_Z (2 - 1 - 0) * (Fin 100 / of_Z 2))%num)
    (cw := (Fin 200 / of_Z 2)%num) (ch := (Fin 100 / of_Z 2)%num).
  - intros i j Hi Hj.
    assert (i = 0 \/ i = 1) as [->| ->] by lia;
      (assert (j = 0 \/ j = 1) as [->| ->] by lia); reflexivity.
  - exact (easel_first_fill (peek plate_store plate_grid) 2 2 eq_refl eq_refl).
Defined.

Lemma renderHeatMap_draws_witness :
  renderHeatMap easel_grid easel_store =
  Some (tt, paint easel_store
              (frame_draws (Fin 200) (Fin 100) (peek easel_store easel_grid) 2 2)) /\
  length (frame_draws (Fin 200) (Fin 100) (peek easel_store easel_grid) 2 2)
  = 11%nat.
Proof.
  apply (renderHeatMap_draws easel_store easel_grid 2 2
           {| width := Fin 200; height := Fin 100; drawn := [] |});
    [|lia|lia|reflexivity].
  split; [reflexivity|repeat constructor].
Defined.

(** ** A plate narrower than two cells *)

Section NarrowPlate.

Context {num : Type} {JN : JsNumber num} {JT : JsTrig num}.

Implicit Types (s : store num) (p : HeatEquationParams num).

(** X16.  In every arithmetic, [initializeSimulation] throws, and
    [resetSimulation] with it, when the computed
    [nx = Math.floor(Lx/dx) + 1] is not an array length ([Array(nx)]
    throws), when it is 0 (the grid is empty and [u[0].length] throws),
    and when it is 1 with [ny >= 1] an array length (the left loop of
    [applyBoundaryConditions] reads [u[1][0]]). *)
Theorem initializeSimulation_narrow_plate p s :
  (to_length (grid_nx p) = None -> initializeSimulation p s = None) /\
  (to_length (grid_nx p) = Some 0 -> initializeSimulation p s = None) /\
  (forall ny, to_length (grid_nx p) = Some 1 ->
     to_length (grid_ny p) = Some ny -> 1 <= ny ->
     initializeSimulation p s = None) /\
  resetSimulation p s = initializeSimulation p s.
Proof.
  split; [|split; [|split; [|done]]].
  - intros Hnx. unfold initializeSimulation, bind.
    by rewrite (initializeGrid_bad_columns p s Hnx).
  - intros Hnx. unfold initializeSimulation, initializeGrid.
    fold (grid_nx p). unfold bind. by rewrite Hnx.
  - intros ny Hnx Hny Hpos.
    destruct (initializeGrid_spec p s 1 ny Hnx Hny)
      as (g & s1 & Hinit & Hsh1 & _); [lia|lia|].
    destruct (row_fill_loop g s1 1 ny 0 (bottom_value p))
      as (s2 & Hbottom & _); [done|lia|lia|].
    assert (Hbc : applyBoundaryConditions p g s1 = None).
    { unfold applyBoundaryConditions.
      rewrite (bind_Some _ _ _ _ _
                 (row_length_spec s1 g 1 ny 0 (proj1 Hsh1) ltac:(lia))).
      replace (Z.of_nat (length g)) with 1 by (symmetry; apply Hsh1).
      unfold bottom_value in Hbottom. rewrite (bind_Some _ _ _ _ _ Hbottom).
      unfold bind at 1. rewrite missing_column_throws; [done| |lia].
      apply zlookup_None. destruct Hsh1 as [[Hlen _] _]. lia. }
    unfold initializeSimulation. rewrite (bind_Some _ _ _ _ _ Hinit).
    unfold bind. by rewrite Hbc.
Qed.

End NarrowPlate.

Lemma initializeSimulation_narrow_plate_witness :
  to_length (grid_nx narrow_params_float) = Some 1 /\
  to_length (grid_nx wide_params_float) = None /\
  any_engine (fun JT =>
    initializeSimulation narrow_params_float blank_store = None /\
    initializeSimulation wide_params_float blank_store = None).
Proof.
  split; [vm_compute; reflexivity|]. split; [vm_compute; reflexivity|].
  intros JT. split.
  - destruct (initializeSimulation_narrow_plate narrow_params_float blank_store)
      as (_ & _ & Hone & _).
    apply (Hone 31); [vm_compute; reflexivity|vm_compute; reflexivity|lia].
  - destruct (initializeSimulation_narrow_plate wide_params_float blank_store)
      as (Hnone & _).
    apply Hnone. vm_compute. reflexivity.
Defined.

(** ** The clock stays below [totalTime] *)

Section ClockBound.

Context {num : Type} {JN : JsNumber num} {JT : JsTrig num}.

Implicit Types (s : store num) (p : HeatEquationParams num).
Implicit Types (st : SimulationState num).

Lemma tick_below_total p (c : num * bool) :
  geb (of_Z 0) (totalTime p) = false ->
  geb (fst c) (totalTime p) = false ->
  geb (fst (tick p c)) (totalTime p) = false.
Proof.
  intros Hzero Hc. unfold tick. destruct (snd c); cbn [negb]; [|done].
  by destruct (geb (fst c + dt p)%num (totalTime p)) eqn:Hge.
Qed.

Lemma ticks_below_total p (n : nat) (c : num * bool) :
  geb (of_Z 0) (totalTime p) = false ->
  geb (fst c) (totalTime p) = false ->
  geb (fst (ticks p n c)) (totalTime p) = false.
Proof.
  intros Hzero. revert c. induction n as [|n IH]; intros c Hc; [done|].
  cbn [ticks]. apply IH. by apply tick_below_total.
Qed.

(** X18.  In every arithmetic: if the test [time >= totalTime] is false
    of the time of the state and of 0, it is false of the time after any
    number of frames.  No frame leaves a time that has reached
    [totalTime] in the state: the step that would do so stores 0. *)
Theorem frames_time_below_total p (n : nat) st s nx ny :
  geb (of_Z 0) (totalTime p) = false ->
  geb (time st) (totalTime p) = false ->
  rect s (u st) nx ny -> 2 <= nx -> 2 <= ny ->
  exists st' s',
    frames p n st s = Some (st', s') /\
    geb (time st') (totalTime p) = false.
Proof.
  intros Hzero Htime Hr Hnx Hny.
  destruct (frames_clock p n st s nx ny Hr Hnx Hny)
    as (st' & s' & Hrun & _ & Hclock).
  exists st', s'. split; [done|].
  replace (time st') with (fst (ticks p n (time st, isRunning st)))
    by (by rewrite <- Hclock).
  by apply ticks_below_total.
Qed.

End ClockBound.

(** Seven frames with [dt = 0.4] and [totalTime = 1] in binary64: the third
    computes [1.2000000000000002], stores 0 and stops. *)
Lemma frames_time_below_total_witness :
  ticks brief_params_float 2 (0%float, true) = (0.8%float, true) /\
  ticks brief_params_float 3 (0%float, true) = (0%float, false) /\
  any_engine (fun JT =>
    exists st' s',
      frames brief_params_float 7
             {| u := sample_grid; time := 0%float; isRunning := true;
                animationId := None |} sample_store = Some (st', s') /\
      geb (time st') (totalTime brief_params_float) = false).
Proof.
  split; [vm_compute; reflexivity|]. split; [vm_compute; reflexivity|].
  intros JT.
  apply (frames_time_below_total brief_params_float 7
           {| u := sample_grid; time := 0%float; isRunning := true;
              animationId := None |} sample_store 3 3);
    [vm_compute; reflexivity|vm_compute; reflexivity
    |exact (proj1 sample_shaped)|lia|lia].
Defined.
